(** * file-loader: the Loader's identity bookkeeping and lifecycle

    A shallow embedding of the [Loader] class of [src/loader.ts] (the
    variant with the chokidar watcher, async destroy hook and
    [DestroyFileError]) and of [src/errors.ts], followed by the properties
    of its load / unload / reload transitions.

    Modelling decisions, stated once:
    - a JavaScript object (an instance built by [new], a resolved module)
      is a reference; [new constructor(...)] allocates a reference that no
      earlier object has, a module is identified by the reference the
      module system hands out;
    - the three [Map]s are finite maps; [Map.get] is lookup, a missing key
      is [undefined], modelled by [None];
    - an exception is an [Outcome]: every method is a state transformer
      returning either a value or the thrown error, and the mutations made
      before the throw stay in the state;
    - everything the loader does to the outside (events, hooks, imports,
      watcher calls) is appended to a trace, in program order;
    - an [await] is sequential composition: one operation runs at a time;
    - strings are byte strings; [toLowerCase] is the ASCII one. *)

From Stdlib Require Import ZArith String Ascii List Bool.
From stdpp Require Import gmap strings list fin_maps.

Local Open Scope string_scope.
Local Open Scope Z_scope.
Local Open Scope list_scope.

(* ===================================================================== *)
(** ** JavaScript string primitives used by the loader                   *)
(* ===================================================================== *)

Module JS.

Definition lower_ascii (c : ascii) : ascii :=
  let n := nat_of_ascii c in
  if ((65 <=? n)%nat && (n <=? 90)%nat)%bool then ascii_of_nat (n + 32) else c.

(** [String.prototype.toLowerCase], on ASCII. *)
Fixpoint toLowerCase (s : string) : string :=
  match s with
  | EmptyString => EmptyString
  | String c r => String (lower_ascii c) (toLowerCase r)
  end.

(** [s.indexOf(sub)]: position of the first occurrence, or -1. *)
Definition indexOf (s sub : string) : Z :=
  match String.index 0 sub s with
  | Some n => Z.of_nat n
  | None => -1
  end.

Definition len (s : string) : Z := Z.of_nat (String.length s).

Definition clamp (lo hi x : Z) : Z := Z.max lo (Z.min hi x).

(** [s.substring(start, end)]: both indices clamped to [0, length], and
    swapped when [start > end]. *)
Definition substring (s : string) (start stop : Z) : string :=
  let a := clamp 0 (len s) start in
  let b := clamp 0 (len s) stop in
  let lo := Z.min a b in
  let hi := Z.max a b in
  String.substring (Z.to_nat lo) (Z.to_nat (hi - lo)) s.

(** [s.slice(start, end)]: a negative index counts from the end; an empty
    string when the range is empty. *)
Definition slice (s : string) (start stop : Z) : string :=
  let rel i := if i <? 0 then Z.max (len s + i) 0 else Z.min i (len s) in
  let a := rel start in
  let b := rel stop in
  if a <? b then String.substring (Z.to_nat a) (Z.to_nat (b - a)) s
  else EmptyString.

(** [s.startsWith(p)]. *)
Definition startsWith (s p : string) : bool := String.prefix p s.

(** Truthiness of a [string | null | undefined]: the empty string, [null]
    and [undefined] are falsy. *)
Definition truthy (o : option string) : bool :=
  match o with
  | Some EmptyString | None => false
  | Some _ => true
  end.

End JS.

(* ===================================================================== *)
(** ** Node's [path] module                                              *)
(* ===================================================================== *)

(** The loader uses [path] through these entries only. *)
Record PathModule := {
  sep : string;
  dirname : string -> string;
  basename : string -> string -> string;
  extname : string -> string;
  resolve : string -> string
}.

(** The POSIX flavour, following Node's [path.posix] on what the loader
    passes to it. *)
Module Posix.

Definition is_slash (o : option ascii) : bool :=
  match o with
  | Some c => Ascii.eqb c "/"
  | None => false
  end.

(** The backwards scan of [posix.dirname]: [i] runs from [length - 1] down
    to 1; the result is the index [end] of the slash that closes the
    directory part. *)
Fixpoint dirname_scan (p : string) (i : nat) (matchedSlash : bool)
  : option nat :=
  match i with
  | O => None
  | S i' =>
      if is_slash (String.get i p) then
        if matchedSlash then dirname_scan p i' true else Some i
      else dirname_scan p i' false
  end.

Definition dirname (p : string) : string :=
  match p with
  | EmptyString => "."
  | _ =>
      let hasRoot := is_slash (String.get 0 p) in
      match dirname_scan p (String.length p - 1) true with
      | None => if hasRoot then "/" else "."
      | Some e =>
          if (hasRoot && Nat.eqb e 1)%bool then "//"
          else String.substring 0 e p
      end
  end.

(** Drops the slashes at the end of a reversed character list. *)
Fixpoint drop_slashes (l : list ascii) : list ascii :=
  match l with
  | c :: r => if Ascii.eqb c "/" then drop_slashes r else l
  | [] => []
  end.

(** The characters before the first slash of a (reversed) list. *)
Fixpoint until_slash (l : list ascii) : list ascii :=
  match l with
  | c :: r => if Ascii.eqb c "/" then [] else c :: until_slash r
  | [] => []
  end.

(** The last path segment, slashes at the end ignored. *)
Definition last_segment (p : string) : string :=
  string_of_list_ascii
    (rev (until_slash (drop_slashes (rev (list_ascii_of_string p))))).

Definition endsWith (s suffix : string) : bool :=
  String.prefix (string_of_list_ascii (rev (list_ascii_of_string suffix)))
                (string_of_list_ascii (rev (list_ascii_of_string s))).

Definition basename (p suffix : string) : string :=
  let base := last_segment p in
  match suffix with
  | EmptyString => base
  | _ =>
      if String.eqb suffix p then EmptyString
      else if (endsWith base suffix && negb (String.eqb base suffix))%bool
      then String.substring 0 (String.length base - String.length suffix) base
      else base
  end.

(** Index of the last dot of a string, scanning a reversed list. *)
Fixpoint last_dot (l : list ascii) (n : nat) : option nat :=
  match l with
  | c :: r => if Ascii.eqb c "." then Some (n - 1)%nat
              else last_dot r (n - 1)%nat
  | [] => None
  end.

Definition extname (p : string) : string :=
  let base := last_segment p in
  match last_dot (rev (list_ascii_of_string base)) (String.length base) with
  | None | Some O => EmptyString
  | Some d =>
      if String.eqb base ".." then EmptyString
      else String.substring d (String.length base - d) base
  end.

(** What stands between the slashes of a path. *)
Fixpoint segments (p : string) : list string :=
  match p with
  | EmptyString => [EmptyString]
  | String c r =>
      if Ascii.eqb c "/" then EmptyString :: segments r
      else match segments r with
           | h :: t => String c h :: t
           | [] => [String c EmptyString]
           end
  end.

(** What [normalizeString] does at the end of a segment; [res] holds the
    segments kept so far, the last one first. An empty segment and [.]
    are dropped, [..] takes the last segment away, or stays when there is
    none to take and the path may leave its root. *)
Definition normalize_segment (allowAboveRoot : bool) (res : list string)
  (seg : string) : list string :=
  if (String.eqb seg "" || String.eqb seg ".")%bool then res
  else if String.eqb seg ".." then
    match res with
    | last :: rest =>
        if String.eqb last ".."
        then (if allowAboveRoot then seg :: res else res)
        else rest
    | [] => if allowAboveRoot then [seg] else []
    end
  else seg :: res.

Definition normalizeString (p : string) (allowAboveRoot : bool) : string :=
  String.concat "/"
    (rev (fold_left (normalize_segment allowAboveRoot) (segments p) [])).

(** [path.resolve] with one argument: the argument, put under the working
    directory unless it is absolute, then normalised; an empty argument
    is skipped, which leaves the working directory. *)
Definition resolve (cwd p : string) : string :=
  let own := match p with
             | EmptyString => EmptyString
             | _ => p +:+ "/"
             end in
  let ownAbsolute := is_slash (String.get 0 p) in
  let resolvedPath :=
    if ownAbsolute then own
    else match cwd with
         | EmptyString => own
         | _ => cwd +:+ "/" +:+ own
         end in
  let resolvedAbsolute := (ownAbsolute || is_slash (String.get 0 cwd))%bool in
  let res := normalizeString resolvedPath (negb resolvedAbsolute) in
  if resolvedAbsolute then "/" +:+ res
  else match res with
       | EmptyString => "."
       | _ => res
       end.

Definition path (cwd : string) : PathModule :=
  Build_PathModule "/" dirname basename extname (resolve cwd).

End Posix.


(* ===================================================================== *)
(** ** Data model                                                        *)
(* ===================================================================== *)

(** [ConstructorType<T>]: a class found in a module; [constructor.name]
    is its own name. *)
Record ConstructorType := {
  ctor_ref : nat;
  ctor_name : string
}.

(** [T], the value stored per path: an object built by [new], or the raw
    module when nothing was instantiated. Both are always truthy. *)
Inductive LoadedUnit :=
| Instance (ref : nat)
| RawModule (mdl : nat).

#[global] Instance LoadedUnit_eq_dec : EqDecision LoadedUnit.
Proof. solve_decision. Defined.

#[global] Instance LoadedUnit_countable : Countable LoadedUnit.
Proof.
  refine (inj_countable'
            (fun u => match u with Instance r => inl r | RawModule m => inr m end)
            (fun s => match s with inl r => Instance r | inr m => RawModule m end)
            _).
  intros []; reflexivity.
Defined.

(** [src/errors.ts], and [Thrown] for an exception of the host that the
    loader lets through unwrapped. *)
Inductive LoaderError :=
| ConfigError
| FileNotFoundError (fileName : string)
| FileLoadError (err : LoaderError) (filePath : string)
| LoadFilesError (err : LoaderError) (path : string)
| DestroyFileError (err : LoaderError) (path : string) (instance : LoadedUnit)
| Thrown (message : string).

(** The events of the [EventEmitter]; [load] carries the [name] variable of
    [loadFromPath], which may be [undefined]. *)
Inductive Event :=
| EvLoad (name : option string) (file : LoadedUnit)
| EvUnload (instance : LoadedUnit)
| EvReload (newInstance oldInstance : LoadedUnit).

(** What an operation does to the outside, in program order. *)
Inductive Effect :=
| Emit (e : Event)
| CacheDelete (filePath : string)
| ImportFile (filePath : string)
| WatcherAdd (watchPath : string)
| WatcherUnwatch (watchPath : string)
| New (c : ConstructorType) (ref : nat)
| DestroyHook (instance : LoadedUnit)
| ReloadHook (newInstance oldInstance : LoadedUnit).

Inductive MainFile :=
| MainFileName (name : string)
| MainFileFn (f : string -> string).

(** [ClassOptions<T>]. A hook returns [Some cause] when it throws or its
    promise rejects. *)
Record ClassOptions := {
  instantiate : bool;
  params : list string;
  findConstructor_opt : option (string -> nat -> option ConstructorType);
  destroy : option (LoadedUnit -> option string);
  reload_opt : option (LoadedUnit -> LoadedUnit -> option string)
}.

(** [LoaderOptions<T>]; an optional field left out is [None]. *)
Record LoaderOptions := {
  opt_path : string;
  opt_nested : option bool;
  opt_mainFile : option MainFile;
  opt_ignored : option (list string);
  opt_autoLoad : option bool;
  opt_classes : option ClassOptions;
  opt_allowedFileExts : option (list string);
  opt_watch : option bool
}.

(** The fields of a [Loader] that are set once by the constructor. *)
Record LoaderConfig := {
  path : string;
  nested : bool;
  mainFile : MainFile;
  classes : ClassOptions;
  allowedFileExts : list string;
  ignored : list string;
  watch : bool
}.

(** The mutable part of a [Loader], the counter of the allocator of [new]
    and the trace. *)
Record LoaderState := {
  fileMap : gmap string LoadedUnit;
  nameMap : gmap LoadedUnit string;
  pathMap : gmap string string;
  nextRef : nat;
  trace : list Effect
}.

(** The module system and the classes it yields: [import(filePath)] gives
    a module or throws; [mdl.default] when it is a function; whether
    [new constructor(...params)] throws. *)
Record Host := {
  import_ : string -> string + nat;
  default_export : nat -> option ConstructorType;
  construct : ConstructorType -> list string -> option string
}.

Inductive Outcome (A : Type) :=
| Ok (a : A)
| Throw (e : LoaderError).
Arguments Ok {A} a.
Arguments Throw {A} e.

(** A method body: a state transformer that returns or throws. *)
Definition M (A : Type) : Type := LoaderState -> Outcome A * LoaderState.

Definition ret {A} (a : A) : M A := fun st => (Ok a, st).

Definition throw {A} (e : LoaderError) : M A := fun st => (Throw e, st).

Definition bind {A B} (m : M A) (k : A -> M B) : M B :=
  fun st =>
    match m st with
    | (Ok a, st') => k a st'
    | (Throw e, st') => (Throw e, st')
    end.

Notation "'let*' x ':=' m 'in' k" := (bind m (fun x => k))
  (at level 10, x name, m at level 100, k at level 200).
Notation "m ';;' k" := (bind m (fun _ => k))
  (at level 100, k at level 200, right associativity).

Definition get_state : M LoaderState := fun st => (Ok st, st).

Definition modify (f : LoaderState -> LoaderState) : M unit :=
  fun st => (Ok tt, f st).

Definition set_fileMap (f : gmap string LoadedUnit -> gmap string LoadedUnit)
  (st : LoaderState) : LoaderState :=
  {| fileMap := f (fileMap st); nameMap := nameMap st; pathMap := pathMap st;
     nextRef := nextRef st; trace := trace st |}.

Definition set_nameMap (f : gmap LoadedUnit string -> gmap LoadedUnit string)
  (st : LoaderState) : LoaderState :=
  {| fileMap := fileMap st; nameMap := f (nameMap st); pathMap := pathMap st;
     nextRef := nextRef st; trace := trace st |}.

Definition set_pathMap (f : gmap string string -> gmap string string)
  (st : LoaderState) : LoaderState :=
  {| fileMap := fileMap st; nameMap := nameMap st; pathMap := f (pathMap st);
     nextRef := nextRef st; trace := trace st |}.

Definition log (e : Effect) (st : LoaderState) : LoaderState :=
  {| fileMap := fileMap st; nameMap := nameMap st; pathMap := pathMap st;
     nextRef := nextRef st; trace := trace st ++ [e] |}.

Definition alloc (st : LoaderState) : LoaderState :=
  {| fileMap := fileMap st; nameMap := nameMap st; pathMap := pathMap st;
     nextRef := S (nextRef st); trace := trace st |}.

(** [this.emit(...)]. *)
Definition emit (e : Event) : M unit := modify (log (Emit e)).

Definition initial_state : LoaderState :=
  {| fileMap := ∅; nameMap := ∅; pathMap := ∅; nextRef := O; trace := [] |}.

(** [try { m } catch (err) { h err }]. *)
Definition try_catch {A} (m : M A) (h : LoaderError -> M A) : M A :=
  fun st =>
    match m st with
    | (Ok a, st') => (Ok a, st')
    | (Throw e, st') => h e st'
    end.

(** [map.delete(key)] where [key] may be [undefined]: no key of the map is
    [undefined], so nothing is deleted then. *)
Definition Map_delete {V} (key : option string) (m : gmap string V)
  : gmap string V :=
  match key with
  | Some k => delete k m
  | None => m
  end.

Definition processName (name : string) : string := JS.toLowerCase name.

Definition defaultClassOptions : ClassOptions :=
  {| instantiate := true; params := [];
     findConstructor_opt := None; destroy := None; reload_opt := None |}.

Definition defaultAllowedExts : list string := [".js"; ".ts"].

Section Loader.

Variable P : PathModule.

(** [fileExt = path.extname(__filename).toLowerCase()], fixed by the
    running file. *)
Variable fileExt : string.

(** The truthiness of [this.mainFile]. *)
Definition mainFile_truthy (m : MainFile) : bool :=
  match m with
  | MainFileName n => JS.truthy (Some n)
  | MainFileFn _ => true
  end.

(** [new Loader(opts)]: the configured loader, its first state and
    whether [loadFiles()] was fired, or the error thrown. An optional
    boolean left out is [undefined], which is falsy; [this.files] is the
    [Map] just created, an object, so [!this.files] is false. *)
Definition new_Loader (opts : LoaderOptions)
  : Outcome (LoaderConfig * LoaderState * bool) :=
  let this_path := resolve P (opt_path opts) in
  let this_nested := default false (opt_nested opts) in
  let this_mainFile :=
    match opt_mainFile opts with
    | Some m => if mainFile_truthy m then m
                else MainFileName ("index" +:+ fileExt)
    | None => MainFileName ("index" +:+ fileExt)
    end in
  let this_classes := default defaultClassOptions (opt_classes opts) in
  let this_allowedFileExts :=
    default defaultAllowedExts (opt_allowedFileExts opts) in
  let this_ignored := default [] (opt_ignored opts) in
  let this_watch := default false (opt_watch opts) in
  let this_files_falsy := false in
  if (negb (JS.truthy (Some this_path))
      || (this_nested && negb (mainFile_truthy this_mainFile))
      || this_files_falsy)%bool
  then Throw ConfigError
  else Ok ({| path := this_path; nested := this_nested;
              mainFile := this_mainFile; classes := this_classes;
              allowedFileExts := this_allowedFileExts;
              ignored := this_ignored; watch := this_watch |},
           initial_state,
           negb (bool_decide (opt_autoLoad opts = Some false))).

Variable this : LoaderConfig.
Variable host : Host.

Definition findConstructor (name : string) (mdl : nat)
  : option ConstructorType :=
  match findConstructor_opt (classes this) with
  | Some f => f name mdl
  | None => default_export host mdl
  end.

Definition findPathFromName (st : LoaderState) (name : string)
  : option string :=
  pathMap st !! processName name.

Definition extractNameFromFilePath (filePath : string) : string :=
  if nested this then dirname P filePath
  else basename P filePath (extname P filePath).

Definition getWatchPath (filePath : string) : string :=
  if nested this then dirname P filePath else filePath.

(** [this.watcher?.add(p)] and [this.watcher?.unwatch(p)]: the watcher
    exists iff [watch] was set. *)
Definition watcher_add (p : string) : M unit :=
  if watch this then modify (log (WatcherAdd p)) else ret tt.

Definition watcher_unwatch (p : string) : M unit :=
  if watch this then modify (log (WatcherUnwatch p)) else ret tt.

(** [import(filePath)]. *)
Definition importFile (filePath : string) : M nat :=
  modify (log (ImportFile filePath));;
  match import_ host filePath with
  | inl e => throw (Thrown e)
  | inr mdl => ret mdl
  end.

(** [new constructor(...this.classes.params)]. *)
Definition new_ (c : ConstructorType) : M LoadedUnit :=
  let* st := get_state in
  let r := nextRef st in
  modify alloc;;
  modify (log (New c r));;
  match construct host c (params (classes this)) with
  | Some e => throw (Thrown e)
  | None => ret (Instance r)
  end.

(** [await this.classes?.destroy?.(instance)]. *)
Definition call_destroy (instance : LoadedUnit) : M unit :=
  match destroy (classes this) with
  | None => ret tt
  | Some d =>
      modify (log (DestroyHook instance));;
      match d instance with
      | Some e => throw (Thrown e)
      | None => ret tt
      end
  end.

(** [await this.classes.reload?.(newInstance, oldInstance)]. *)
Definition call_reload (newInstance oldInstance : LoadedUnit) : M unit :=
  match reload_opt (classes this) with
  | None => ret tt
  | Some f =>
      modify (log (ReloadHook newInstance oldInstance));;
      match f newInstance oldInstance with
      | Some e => throw (Thrown e)
      | None => ret tt
      end
  end.

(** The value of [name] after the first statement of [initFile]:
    [if (!name) name = this.extractNameFromFilePath(filePath)]. *)
Definition nameOrDerived (name : option string) (filePath : string)
  : string :=
  if JS.truthy name then default "" name
  else extractNameFromFilePath filePath.

(** The body of [initFile], returning with the stored unit the last value
    of its local variable [name]. *)
Definition initFile_body (name : option string) (filePath : string)
  (file : nat) : M (LoadedUnit * string) :=
  let name := nameOrDerived name filePath in
  watcher_add (getWatchPath filePath);;
  match (if instantiate (classes this) then findConstructor name file
         else None) with
  | Some constructor =>
      let* file := new_ constructor in
      modify (set_pathMap <[processName name := filePath]>);;
      modify (set_nameMap <[file := name]>);;
      let name := ctor_name constructor in
      modify (set_fileMap <[filePath := file]>);;
      ret (file, name)
  | None =>
      modify (set_fileMap <[filePath := RawModule file]>);;
      ret (RawModule file, name)
  end.

(** [initFile] returns [file] only: its [name] is dropped. *)
Definition initFile (name : option string) (filePath : string) (file : nat)
  : M LoadedUnit :=
  let* r := initFile_body name filePath file in
  ret (fst r).

Definition loadFromPath (filePath : string) (name : option string)
  (emit_ : bool) : M LoadedUnit :=
  let* st := get_state in
  match fileMap st !! filePath with
  | Some oldInstance => ret oldInstance
  | None =>
      let* file :=
        try_catch (importFile filePath)
                  (fun err => throw (FileLoadError err filePath)) in
      let* file := initFile name filePath file in
      (if emit_ then emit (EvLoad name file) else ret tt);;
      ret file
  end.

Definition unloadFromPath (filePath : string) (emit_ : bool)
  : M (option LoadedUnit) :=
  let* st := get_state in
  match fileMap st !! filePath with
  | Some instance =>
      watcher_unwatch (getWatchPath filePath);;
      let* st := get_state in
      let name := nameMap st !! instance in
      try_catch (call_destroy instance)
                (fun err => throw (DestroyFileError err filePath instance));;
      modify (set_fileMap (delete filePath));;
      modify (set_pathMap (Map_delete name));;
      modify (set_nameMap (delete instance));;
      (if emit_ then emit (EvUnload instance) else ret tt);;
      ret (Some instance)
  | None => ret None
  end.

Definition unload (name : string) : M (option LoadedUnit) :=
  let* st := get_state in
  let filePath := findPathFromName st name in
  if negb (JS.truthy filePath) then ret None
  else unloadFromPath (default "" filePath) true.

Definition reloadFromPath (filePath : string) : M (option LoadedUnit) :=
  modify (log (CacheDelete filePath));;
  let* oldInstance := unloadFromPath filePath true in
  match oldInstance with
  | Some oldInstance =>
      let* st := get_state in
      let* newInstance :=
        loadFromPath filePath (nameMap st !! oldInstance) false in
      call_reload newInstance oldInstance;;
      emit (EvReload newInstance oldInstance);;
      ret (Some newInstance)
  | None => ret None
  end.

Definition reload (name : string) : M (option LoadedUnit) :=
  let* st := get_state in
  let filePath := findPathFromName st name in
  if negb (JS.truthy filePath) then throw (FileNotFoundError name)
  else reloadFromPath (default "" filePath).

(** The path computed by the listener of [setupWatcher] from the path
    reported by the watcher. *)
Definition watcherFilePath (srcPath : string) : string :=
  if nested this then
    if JS.indexOf srcPath (path this) =? 0 then
      let relativePath :=
        JS.substring srcPath (JS.len (path this) + JS.len (sep P))
                     (JS.len srcPath) in
      let firstSepIndex := JS.indexOf relativePath (sep P) in
      if firstSepIndex =? -1 then srcPath
      else JS.slice relativePath 0 (- JS.len relativePath + firstSepIndex)
    else srcPath
  else srcPath.

(** The listener of [setupWatcher]. The promise of [reloadFromPath] is not
    awaited: its result and its rejection are dropped. *)
Definition onWatcherEvent (srcPath : string) : M unit :=
  let filePath := watcherFilePath srcPath in
  let* st := get_state in
  if bool_decide (is_Some (fileMap st !! filePath)) then
    fun st' => (Ok tt, snd (reloadFromPath filePath st'))
  else ret tt.

(** *** The operations as a transition system *)

Inductive Op :=
| OpLoadFromPath (filePath : string) (name : option string) (emit_ : bool)
| OpUnloadFromPath (filePath : string) (emit_ : bool)
| OpReloadFromPath (filePath : string)
| OpUnload (name : string)
| OpReload (name : string)
| OpWatcherEvent (srcPath : string).

End Loader.

(** The state an operation leaves, whether it returned or threw. *)
Definition exec (P : PathModule) (this : LoaderConfig) (host : Host)
  (op : Op) (st : LoaderState) : LoaderState :=
  match op with
  | OpLoadFromPath filePath name emit_ =>
      snd (loadFromPath P this host filePath name emit_ st)
  | OpUnloadFromPath filePath emit_ =>
      snd (unloadFromPath P this filePath emit_ st)
  | OpReloadFromPath filePath => snd (reloadFromPath P this host filePath st)
  | OpUnload name => snd (unload P this name st)
  | OpReload name => snd (reload P this host name st)
  | OpWatcherEvent srcPath => snd (onWatcherEvent P this host srcPath st)
  end.

(** The events among the effects of a trace. *)
Fixpoint events (tr : list Effect) : list Event :=
  match tr with
  | Emit e :: r => e :: events r
  | _ :: r => events r
  | [] => []
  end.

(** The imports and constructor calls among the effects of a trace. *)
Fixpoint resolutions (tr : list Effect) : list Effect :=
  match tr with
  | ImportFile f :: r => ImportFile f :: resolutions r
  | New c i :: r => New c i :: resolutions r
  | _ :: r => resolutions r
  | [] => []
  end.

(** The identity rows of a loaded unit agree in both directions. *)
Definition round_trip (st : LoaderState) (filePath : string)
  (u : LoadedUnit) : Prop :=
  exists n, nameMap st !! u = Some n
            /\ pathMap st !! processName n = Some filePath
            /\ fileMap st !! filePath = Some u.

(** No loaded unit other than the one stored at [filePath] holds the
    logical name [name], compared as [processName] compares. *)
Definition name_available (st : LoaderState) (filePath name : string)
  : Prop :=
  forall u n, nameMap st !! u = Some n ->
              processName n = processName name ->
              fileMap st !! filePath = Some u.

(** The operations that register a name do so with an available one. *)
Definition registers_available_name (P : PathModule) (this : LoaderConfig)
  (st : LoaderState) (op : Op) : Prop :=
  match op with
  | OpLoadFromPath filePath name _ =>
      fileMap st !! filePath = None ->
      name_available st filePath (nameOrDerived P this name filePath)
  | OpReloadFromPath filePath =>
      name_available st filePath (extractNameFromFilePath P this filePath)
  | OpReload name =>
      forall filePath, findPathFromName st name = Some filePath ->
        name_available st filePath (extractNameFromFilePath P this filePath)
  | OpWatcherEvent srcPath =>
      name_available st (watcherFilePath P this srcPath)
        (extractNameFromFilePath P this (watcherFilePath P this srcPath))
  | OpUnloadFromPath _ _ | OpUnload _ => True
  end.

(** The states of a loader: the one its constructor makes, and those its
    operations lead to; the host may answer differently at each step. *)
Inductive Reachable (P : PathModule) (this : LoaderConfig)
  : LoaderState -> Prop :=
| Reachable_new : Reachable P this initial_state
| Reachable_step st host op :
    Reachable P this st ->
    registers_available_name P this st op ->
    Reachable P this (exec P this host op st).

(** The bookkeeping invariant behind the round trip. *)
Record Consistent (st : LoaderState) : Prop := {
  named_is_stored :
    forall u n, nameMap st !! u = Some n ->
      exists filePath, pathMap st !! processName n = Some filePath
                       /\ fileMap st !! filePath = Some u;
  named_is_fresh :
    forall u, is_Some (nameMap st !! u) ->
      exists r, u = Instance r /\ (r < nextRef st)%nat;
  instance_is_named :
    forall filePath r, fileMap st !! filePath = Some (Instance r) ->
      is_Some (nameMap st !! Instance r);
  instance_stored_once :
    forall f1 f2 r, fileMap st !! f1 = Some (Instance r) ->
      fileMap st !! f2 = Some (Instance r) -> f1 = f2
}.

(** [st'] has the rows of [st]; only the trace and the allocator may have
    moved. *)
Definition same_rows (st st' : LoaderState) : Prop :=
  fileMap st' = fileMap st /\ nameMap st' = nameMap st
  /\ pathMap st' = pathMap st /\ (nextRef st <= nextRef st')%nat.

(** *** The states the operations pass through *)

(** The state in which [initFile] looks for a constructor. *)
Definition watched (P : PathModule) (this : LoaderConfig)
  (filePath : string) (st : LoaderState) : LoaderState :=
  if watch this then log (WatcherAdd (getWatchPath P this filePath)) st
  else st.

(** The rows written by [initFile] for an instantiated unit. *)
Definition registered (filePath name : string) (u : LoadedUnit)
  (st : LoaderState) : LoaderState :=
  set_fileMap <[filePath := u]>
    (set_nameMap <[u := name]>
       (set_pathMap <[processName name := filePath]> st)).

(** The state in which [unloadFromPath] calls the destroy hook. *)
Definition unwatched (P : PathModule) (this : LoaderConfig)
  (filePath : string) (st : LoaderState) : LoaderState :=
  if watch this then log (WatcherUnwatch (getWatchPath P this filePath)) st
  else st.

(** The rows deleted by [unloadFromPath]. *)
Definition unregistered (filePath : string) (name : option string)
  (u : LoadedUnit) (st : LoaderState) : LoaderState :=
  set_nameMap (delete u)
    (set_pathMap (Map_delete name) (set_fileMap (delete filePath) st)).

(* ===================================================================== *)
(** ** Concrete loaders used by the examples                             *)
(* ===================================================================== *)

Module Examples.

Definition posix : PathModule := Posix.path "/home/app".

Definition Alpha : ConstructorType := {| ctor_ref := 1; ctor_name := "Alpha" |}.
Definition Foo : ConstructorType := {| ctor_ref := 2; ctor_name := "Foo" |}.
Definition Bakery : ConstructorType := {| ctor_ref := 3; ctor_name := "Bakery" |}.

(** A directory [/d] with [a.ts] and [Foo.ts], a directory [/e] with
    [A.ts], and a nested directory [/mods] with [bakery/main.ts]; each
    module has a class as its default export, and no constructor throws. *)
Definition host : Host :=
  {| import_ := fun filePath =>
       if String.eqb filePath "/d/a.ts" then inr 1%nat
       else if String.eqb filePath "/d/Foo.ts" then inr 2%nat
       else if String.eqb filePath "/mods/bakery/main.ts" then inr 3%nat
       else if String.eqb filePath "/e/A.ts" then inr 4%nat
       else inl "Cannot find module";
     default_export := fun mdl =>
       match mdl with
       | 1%nat => Some Alpha
       | 2%nat => Some Foo
       | 3%nat => Some Bakery
       | 4%nat => Some Alpha
       | _ => None
       end;
     construct := fun _ _ => None |}.

(** [new Loader({ path: '/d', autoLoad: false })]. *)
Definition flat : LoaderConfig :=
  {| path := "/d"; nested := false; mainFile := MainFileName "index.ts";
     classes := defaultClassOptions; allowedFileExts := defaultAllowedExts;
     ignored := []; watch := false |}.

(** The same with [classes: { instantiate: false }]. *)
Definition flat_raw : LoaderConfig :=
  {| path := "/d"; nested := false; mainFile := MainFileName "index.ts";
     classes := {| instantiate := false; params := [];
                   findConstructor_opt := None; destroy := None;
                   reload_opt := None |};
     allowedFileExts := defaultAllowedExts; ignored := []; watch := false |}.

(** [new Loader({ path: '/mods', nested: true, mainFile: 'main.ts',
    watch: true, autoLoad: false })]. *)
Definition nested_watch : LoaderConfig :=
  {| path := "/mods"; nested := true; mainFile := MainFileName "main.ts";
     classes := defaultClassOptions; allowedFileExts := defaultAllowedExts;
     ignored := []; watch := true |}.


(** [{ path: '/mods', nested: true }]: nested, with no main-file rule. *)
Definition nested_without_mainFile : LoaderOptions :=
  {| opt_path := "/mods"; opt_nested := Some true; opt_mainFile := None;
     opt_ignored := None; opt_autoLoad := Some false; opt_classes := None;
     opt_allowedFileExts := None; opt_watch := None |}.

(** The state after [st], whatever the outcome. *)
Definition after {A} (m : M A) (st : LoaderState) : LoaderState := snd (m st).

(** [/d/Foo.ts] loaded by a new flat loader, then unloaded. *)
Definition Foo_loaded : LoaderState :=
  after (loadFromPath posix flat host "/d/Foo.ts" None true) initial_state.

Definition Foo_unloaded : LoaderState :=
  after (unloadFromPath posix flat "/d/Foo.ts" true) Foo_loaded.

(** [/d/a.ts] loaded by a new flat loader. *)
Definition a_loaded : LoaderState :=
  after (loadFromPath posix flat host "/d/a.ts" None true) initial_state.

(** [/d/a.ts] loaded under the name [custom], then reloaded. *)
Definition custom_loaded : LoaderState :=
  after (loadFromPath posix flat host "/d/a.ts" (Some "custom") true)
        initial_state.

Definition custom_reloaded : LoaderState :=
  after (reloadFromPath posix flat host "/d/a.ts") custom_loaded.

(** [/d/a.ts] loaded, then [/e/A.ts]: two units named alike. *)
Definition a_and_A_loaded : LoaderState :=
  after (loadFromPath posix flat host "/e/A.ts" None true) a_loaded.

(** [/d/a.ts] kept as a raw module. *)
Definition a_raw : LoaderState :=
  after (loadFromPath posix flat_raw host "/d/a.ts" None true) initial_state.


(** The unit [bakery] of the nested loader, loaded from its main file. *)
Definition bakery_loaded : LoaderState :=
  after (loadFromPath posix nested_watch host "/mods/bakery/main.ts" None true)
        initial_state.

End Examples.

(* ===================================================================== *)
(** ** Further notions used by the properties                            *)
(* ===================================================================== *)

(** The destroy hook, if there is one, returns normally on [u]. *)
Definition destroy_ok (this : LoaderConfig) (u : LoadedUnit) : Prop :=
  match destroy (classes this) with
  | Some d => d u = None
  | None => True
  end.

(** The paths loaded in [st'] were loaded in [st]. *)
Definition no_new_path (st st' : LoaderState) : Prop :=
  forall filePath, is_Some (fileMap st' !! filePath) ->
                   is_Some (fileMap st !! filePath).

(* ===================================================================== *)
(** ** Batch loading, readiness and the rest of the class                *)
(* ===================================================================== *)

(** The events of [loadFiles]. *)
Inductive BatchEvent :=
| EvError (err : LoaderError)
| EvLoadMany (instances : list LoadedUnit)
| EvReady.

(** What [loadFiles] and [onReady] do to the outside. *)
Inductive BatchEffect :=
| Readdir (dir : string)
| EmitBatch (e : BatchEvent)
| ReadyCallback (cb : nat).

(** A [Loader] with its [_ready] flag and its emitter: whether an
    ['error'] listener is attached, and the callbacks waiting on
    [once('ready')]. Each entry of [batchLog] carries the length the
    trace of [loader] had when it was logged, which places it among the
    effects of the single-path operations. *)
Record Session := {
  loader : LoaderState;
  _ready : bool;
  errorListener : bool;
  onceReady : list nat;
  batchLog : list (nat * BatchEffect)
}.

Definition MS (A : Type) : Type := Session -> Outcome A * Session.

Definition retS {A} (a : A) : MS A := fun s => (Ok a, s).

Definition throwS {A} (e : LoaderError) : MS A := fun s => (Throw e, s).

Definition bindS {A B} (m : MS A) (k : A -> MS B) : MS B :=
  fun s =>
    match m s with
    | (Ok a, s') => k a s'
    | (Throw e, s') => (Throw e, s')
    end.

Notation "'let+' x ':=' m 'in' k" := (bindS m (fun x => k))
  (at level 10, x name, m at level 100, k at level 200).
Notation "m ';+' k" := (bindS m (fun _ => k))
  (at level 100, k at level 200, right associativity).

Definition try_catchS {A} (m : MS A) (h : LoaderError -> MS A) : MS A :=
  fun s =>
    match m s with
    | (Ok a, s') => (Ok a, s')
    | (Throw e, s') => h e s'
    end.

Definition set_loader (st : LoaderState) (s : Session) : Session :=
  {| loader := st; _ready := _ready s;
     errorListener := errorListener s; onceReady := onceReady s;
     batchLog := batchLog s |}.

(** A single-path operation run on the loader of the session. *)
Definition lift {A} (m : M A) : MS A :=
  fun s => let (r, st) := m (loader s) in (r, set_loader st s).

Definition logS (e : BatchEffect) (s : Session) : Session :=
  {| loader := loader s; _ready := _ready s;
     errorListener := errorListener s; onceReady := onceReady s;
     batchLog := batchLog s ++ [(List.length (trace (loader s)), e)] |}.

Definition set_ready (s : Session) : Session :=
  {| loader := loader s; _ready := true;
     errorListener := errorListener s; onceReady := onceReady s;
     batchLog := batchLog s |}.

Definition set_onceReady (l : list nat) (s : Session) : Session :=
  {| loader := loader s; _ready := _ready s;
     errorListener := errorListener s; onceReady := l;
     batchLog := batchLog s |}.

(** [this.emit('error', err)]: an emitter with no ['error'] listener
    throws the error it is asked to emit (as it is when it is an [Error],
    which the errors of the loader are). *)
Definition emit_error (err : LoaderError) : MS unit :=
  fun s =>
    if errorListener s then (Ok tt, logS (EmitBatch (EvError err)) s)
    else (Throw err, s).

(** [this.emit('load-many', instances)]. *)
Definition emit_load_many (instances : list LoadedUnit) : MS unit :=
  fun s => (Ok tt, logS (EmitBatch (EvLoadMany instances)) s).

(** [this.emit('ready')]: the callbacks registered by [once] are called
    in the order they were registered, and forgotten. *)
Definition emit_ready : MS unit :=
  fun s =>
    (Ok tt,
     fold_left (fun s' cb => logS (ReadyCallback cb) s') (onceReady s)
               (set_onceReady [] (logS (EmitBatch EvReady) s))).

(** [onReady(cb)]. *)
Definition onReady (cb : nat) : MS unit :=
  fun s =>
    if _ready s then (Ok tt, logS (ReadyCallback cb) s)
    else (Ok tt, set_onceReady (onceReady s ++ [cb]) s).

Section Files.

Variable P : PathModule.

(** [path.join] with two arguments. *)
Variable join : string -> string -> string.

(** [fs.readdir(dir)]: the names of the entries, or the cause of the
    failure. *)
Variable readdir : string -> string + list string.

Variable this : LoaderConfig.
Variable host : Host.

(** [isFileValid(file, nested = this.nested)]. *)
Definition isFileValid (file : string) (nested_ : option bool) : bool :=
  let nested_ := default (nested this) nested_ in
  let extname := JS.toLowerCase (extname P file) in
  if ((nested_ && JS.truthy (Some extname))
      || (negb nested_
          && negb (bool_decide (extname ∈ allowedFileExts this))))%bool
  then false
  else if bool_decide (file ∈ ignored this) then false
  else true.

(** [getMainFilePath(fileName, dir = this.path, nested = this.nested)]. *)
Definition getMainFilePath (fileName : string) (dir : option string)
  (nested_ : option bool) : string :=
  let dir := default (path this) dir in
  let nested_ := default (nested this) nested_ in
  let fileName := join dir fileName in
  if nested_ then
    match mainFile this with
    | MainFileFn f => f fileName
    | MainFileName m => join fileName m
    end
  else fileName.

Definition loadFromFileName (fileName : string) : M LoadedUnit :=
  loadFromPath P this host (getMainFilePath fileName None None) None true.

(** The [for] loop of [loadFiles]. *)
Fixpoint loadEach (dir : string) (nested_ : option bool)
  (files : list string) (instances : list LoadedUnit)
  : MS (list LoadedUnit) :=
  match files with
  | [] => retS instances
  | fileName :: rest =>
      if negb (isFileValid fileName nested_) then
        loadEach dir nested_ rest instances
      else
        let filePath := getMainFilePath fileName (Some dir) nested_ in
        let+ instances :=
          try_catchS
            (let+ file := lift (loadFromPath P this host filePath None true) in
             retS (instances ++ [file]))
            (fun err => emit_error err ;+ retS instances) in
        loadEach dir nested_ rest instances
  end.

(** The directory [loadFiles] reads, and its [nested] after
    [if (this.nested && dir === this.path) nested = true]. *)
Definition batch_dir (dir : option string) : string :=
  default (path this) dir.

Definition batch_nested (dir : option string) (nested_ : option bool)
  : option bool :=
  if (nested this && String.eqb (batch_dir dir) (path this))%bool
  then Some true else nested_.

(** The entries [loadFiles] keeps, and the path it loads for each. *)
Definition valid_entries (nested_ : option bool) (files : list string)
  : list string :=
  List.filter (fun fileName => isFileValid fileName nested_) files.

(** [loadFiles(dir = this.path, nested?)]. *)
Definition loadFiles (dir : option string) (nested_ : option bool)
  : MS (list LoadedUnit) :=
  let nested_ := batch_nested dir nested_ in
  let dir := batch_dir dir in
  let+ files :=
    try_catchS
      (fun s => match readdir dir with
                | inl e => (Throw (Thrown e), logS (Readdir dir) s)
                | inr files => (Ok files, logS (Readdir dir) s)
                end)
      (fun err => throwS (LoadFilesError err dir)) in
  let+ instances := loadEach dir nested_ files [] in
  emit_load_many instances ;+
  (fun s => if negb (_ready s) then emit_ready (set_ready s)
            else (Ok tt, s)) ;+
  retS instances.

(** [shouldFindDependencies(filePath)]. *)
Definition shouldFindDependencies (filePath : string) : bool :=
  JS.startsWith filePath (path this).

End Files.

(** A module of Node with the modules it was the first to require: the
    [children] of the modules form a tree. *)
Unset Elimination Schemes.
Inductive NodeModule :=
| Build_NodeModule (id : string) (children : list NodeModule).
Set Elimination Schemes.

(** [findDependencies(mdl, deps = [])]: [deps] is pushed to and returned. *)
Fixpoint findDependencies (this : LoaderConfig) (mdl : NodeModule)
  (deps : list string) : list string :=
  match mdl with
  | Build_NodeModule id children =>
      if shouldFindDependencies this id then
        fold_left (fun deps child => findDependencies this child deps)
                  children (deps ++ [id])
      else deps
  end.

(** All the identifiers of a tree of modules, the root first. *)
Fixpoint module_ids (mdl : NodeModule) : list string :=
  match mdl with
  | Build_NodeModule id children => id :: flat_map module_ids children
  end.

(** *** [src/errors.ts] *)

Definition newline : ascii := ascii_of_nat 10.

(** [s.split('\n')]. *)
Fixpoint split_lines (s : string) : list string :=
  match s with
  | EmptyString => [EmptyString]
  | String c r =>
      if Ascii.eqb c newline then EmptyString :: split_lines r
      else match split_lines r with
           | h :: t => String c h :: t
           | [] => [String c EmptyString]
           end
  end.

(** [lines.join('\n')]. *)
Definition join_lines (lines : list string) : string :=
  String.concat (String newline EmptyString) lines.

Definition createStackProxy (newStack oldStack : string) : string :=
  join_lines (take 2 (split_lines newStack))
  +:+ String newline EmptyString +:+ oldStack.

(** *** Reading a session *)

(** The events a session has emitted, in order. *)
Fixpoint batch_events (l : list (nat * BatchEffect)) : list BatchEvent :=
  match l with
  | (_, EmitBatch e) :: r => e :: batch_events r
  | _ :: r => batch_events r
  | [] => []
  end.

(** How many times ['ready'] was emitted. *)
Fixpoint ready_count (l : list BatchEvent) : nat :=
  match l with
  | EvReady :: r => S (ready_count r)
  | _ :: r => ready_count r
  | [] => O
  end.

(** How many times the callback [cb] was called. *)
Fixpoint calls_of (cb : nat) (l : list (nat * BatchEffect)) : nat :=
  match l with
  | (_, ReadyCallback cb') :: r =>
      if Nat.eqb cb cb' then S (calls_of cb r) else calls_of cb r
  | _ :: r => calls_of cb r
  | [] => O
  end.

(** How many times [cb] occurs in a list of callbacks. *)
Fixpoint occurrences (cb : nat) (l : list nat) : nat :=
  match l with
  | cb' :: r => if Nat.eqb cb cb' then S (occurrences cb r)
                else occurrences cb r
  | [] => O
  end.

(** The paths imported, in order. *)
Fixpoint imports (tr : list Effect) : list string :=
  match tr with
  | ImportFile f :: r => f :: imports r
  | _ :: r => imports r
  | [] => []
  end.

(** What a user does with a loader. *)
Inductive SessionOp :=
| SLoadFiles (dir : option string) (nested_ : option bool)
| SOnReady (cb : nat)
| SSinglePath (op : Op)
| SListenError (attached : bool).

(** One step: the file system and the module system may have changed
    since the step before. *)
Definition stepS (P : PathModule) (join : string -> string -> string)
  (this : LoaderConfig)
  (step : (string -> string + list string) * Host * SessionOp)
  (s : Session) : Session :=
  match step with
  | (readdir, host, SLoadFiles dir nested_) =>
      snd (loadFiles P join readdir this host dir nested_ s)
  | (_, _, SOnReady cb) => snd (onReady cb s)
  | (_, host, SSinglePath op) => set_loader (exec P this host op (loader s)) s
  | (_, _, SListenError attached) =>
      {| loader := loader s; _ready := _ready s; errorListener := attached;
         onceReady := onceReady s; batchLog := batchLog s |}
  end.

Definition runS (P : PathModule) (join : string -> string -> string)
  (this : LoaderConfig)
  (steps : list ((string -> string + list string) * Host * SessionOp))
  (s : Session) : Session :=
  fold_left (fun s step => stepS P join this step s) steps s.

(** The [onReady] registrations of [cb] in a list of steps. *)
Fixpoint registrations (cb : nat)
  (steps : list ((string -> string + list string) * Host * SessionOp))
  : nat :=
  match steps with
  | (_, _, SOnReady cb') :: r =>
      if Nat.eqb cb cb' then S (registrations cb r) else registrations cb r
  | _ :: r => registrations cb r
  | [] => O
  end.

(** The session of a loader just constructed with [autoLoad: false]. *)
Definition new_session : Session :=
  {| loader := initial_state; _ready := false; errorListener := false;
     onceReady := []; batchLog := [] |}.

(** What holds of the readiness of a session in which [registered cb]
    calls of [onReady(cb)] were made: ['ready'] was emitted once if the
    loader is ready and never otherwise, no callback waits on a ready
    loader, and each registered callback has been called or is waiting. *)
Definition ready_invariant (s : Session) (registered : nat -> nat) : Prop :=
  ready_count (batch_events (batchLog s)) = (if _ready s then 1 else 0)%nat
  /\ (_ready s = true -> onceReady s = [])
  /\ forall cb,
       (calls_of cb (batchLog s) + occurrences cb (onceReady s))%nat
       = registered cb.

(** A string with no line break. *)
Fixpoint one_line (s : string) : bool :=
  match s with
  | EmptyString => true
  | String c r => (negb (Ascii.eqb c newline) && one_line r)%bool
  end.

(* ===================================================================== *)
(** ** The variant of the class without a watcher                        *)
(* ===================================================================== *)

(** The first [Loader] class of the same source text: it has no watcher,
    its destroy hook is not awaited and its errors are not wrapped, and
    [loadFromPath] itself replaces a unit that is already loaded. Its
    other methods are as above. *)
Module InPlace.

Section Loader.

Variable P : PathModule.
Variable this : LoaderConfig.
Variable host : Host.

(** [this.emit('reload', file, oldInstance)] when there was an instance,
    [this.emit('load', name, file)] otherwise. *)
Definition emit_loaded (oldInstance : option LoadedUnit) (name : string)
  (file : LoadedUnit) : M unit :=
  match oldInstance with
  | Some oldInstance => emit (EvReload file oldInstance)
  | None => emit (EvLoad (Some name) file)
  end.

Definition loadFromPath (filePath : string) (name : option string)
  : M LoadedUnit :=
  let* file :=
    try_catch (importFile host filePath)
              (fun err => throw (FileLoadError err filePath)) in
  let name := nameOrDerived P this name filePath in
  let* st := get_state in
  let oldInstance := fileMap st !! filePath in
  match oldInstance with
  | Some oldInstance => call_destroy this oldInstance
  | None => ret tt
  end;;
  match (if instantiate (classes this) then findConstructor this host name file
         else None) with
  | Some constructor =>
      let* file := new_ this host constructor in
      modify (set_pathMap <[processName name := filePath]>);;
      modify (set_nameMap <[file := name]>);;
      let name := ctor_name constructor in
      modify (set_fileMap <[filePath := file]>);;
      emit_loaded oldInstance name file;;
      ret file
  | None =>
      modify (set_fileMap <[filePath := RawModule file]>);;
      emit_loaded oldInstance name (RawModule file);;
      ret (RawModule file)
  end.

Definition unloadFromPath (filePath : string) : M (option LoadedUnit) :=
  let* st := get_state in
  match fileMap st !! filePath with
  | Some instance =>
      let name := nameMap st !! instance in
      call_destroy this instance;;
      modify (set_fileMap (delete filePath));;
      modify (set_pathMap (Map_delete name));;
      modify (set_nameMap (delete instance));;
      emit (EvUnload instance);;
      ret (Some instance)
  | None => ret None
  end.

(** [reloadFromPath(filePath, autoLoad = true)]; [nameMap.get(undefined)]
    is [undefined]. *)
Definition reloadFromPath (filePath : string) (autoLoad : bool)
  : M (option LoadedUnit) :=
  modify (log (CacheDelete filePath));;
  let* st := get_state in
  let oldInstance := fileMap st !! filePath in
  if (bool_decide (is_Some oldInstance) || autoLoad)%bool then
    let* file :=
      loadFromPath filePath
        (match oldInstance with
         | Some oldInstance => nameMap st !! oldInstance
         | None => None
         end) in
    ret (Some file)
  else ret None.

End Loader.

End InPlace.

(* ===================================================================== *)
(** ** More concrete loaders                                             *)
(* ===================================================================== *)

Module MoreExamples.

Import Examples.

(** [path.join] of a directory and a plain name. *)
Definition join (dir name : string) : string := dir +:+ "/" +:+ name.

(** [/d] holds [a.ts], [Foo.ts], a text file and a source file that does
    not load; no other directory can be listed. *)
Definition readdir (dir : string) : string + list string :=
  if String.eqb dir "/d" then inr ["a.ts"; "notes.md"; "broken.ts"; "Foo.ts"]
  else inl "ENOENT".

(** [/d] without the file that does not load. *)
Definition readdir_clean (dir : string) : string + list string :=
  if String.eqb dir "/d" then inr ["a.ts"; "notes.md"; "Foo.ts"]
  else inl "ENOENT".

(** The module system after the files were removed. *)
Definition host_gone : Host :=
  {| import_ := fun _ => inl "Cannot find module";
     default_export := default_export host;
     construct := construct host |}.

(** The classes throw when constructed. *)
Definition host_throwing : Host :=
  {| import_ := import_ host;
     default_export := default_export host;
     construct := fun _ _ => Some "constructor failed" |}.

(** [flat] with [allowedFileExts: ['.TS']]. *)
Definition flat_upper : LoaderConfig :=
  {| path := "/d"; nested := false; mainFile := MainFileName "index.ts";
     classes := defaultClassOptions; allowedFileExts := [".TS"];
     ignored := []; watch := false |}.

(** [flat] with [ignored: ['Foo.ts']]. *)
Definition flat_ignoring : LoaderConfig :=
  {| path := "/d"; nested := false; mainFile := MainFileName "index.ts";
     classes := defaultClassOptions; allowedFileExts := defaultAllowedExts;
     ignored := ["Foo.ts"]; watch := false |}.

(** A new loader on which [loader.on('error', ...)] was called. *)
Definition listening : Session :=
  {| loader := initial_state; _ready := false; errorListener := true;
     onceReady := []; batchLog := [] |}.

Definition a_unloaded : LoaderState :=
  after (unloadFromPath posix flat "/d/a.ts" true) a_loaded.

(** [/d/a.ts] requires [/d/lib/util.ts] and a package outside [/d], which
    requires a file of its own. *)
Definition a_module : NodeModule :=
  Build_NodeModule "/d/a.ts"
    [Build_NodeModule "/d/lib/util.ts" [];
     Build_NodeModule "/node_modules/pkg/index.js"
       [Build_NodeModule "/node_modules/pkg/lib.js" []]].

Definition util_module : NodeModule :=
  Build_NodeModule "/d/a.ts" [Build_NodeModule "/d/lib/util.ts" []].

(** [/d/a.ts] loaded under the name [custom] by the variant without a
    watcher, then reloaded. *)
Definition inplace_loaded : LoaderState :=
  after (InPlace.loadFromPath posix flat host "/d/a.ts" (Some "custom"))
        initial_state.

Definition inplace_reloaded : LoaderState :=
  after (InPlace.reloadFromPath posix flat host "/d/a.ts" true) inplace_loaded.

End MoreExamples.

(* ===================================================================== *)
(** ** The watch list of the variant that keeps one                      *)
(* ===================================================================== *)

(** The variant of the loader that watches the directories [loadFiles]
    was called on keeps [watchList], a [Map] from directory to its
    [nested] flag, next to the chokidar watcher. *)
Module WatchList.

(** The calls made to the chokidar watcher. *)
Inductive WatcherCall :=
| Add (dir : string)
| Unwatch (dir : string).

(** A [Map] iterates in insertion order: the list of its entries, oldest
    first. *)
Record Watching := {
  watchList : list (string * bool);
  calls : list WatcherCall
}.

(** [s.endsWith(suffix)]. *)
Definition endsWith (s suffix : string) : bool :=
  ((String.length suffix <=? String.length s)%nat
   && String.eqb (String.substring (String.length s - String.length suffix)
                    (String.length suffix) s) suffix)%bool.

(** [Map.has] and [Map.delete]. *)
Definition has (dir : string) (l : list (string * bool)) : bool :=
  existsb (fun e => String.eqb (fst e) dir) l.

Definition delete (dir : string) (l : list (string * bool))
  : list (string * bool) :=
  List.filter (fun e => negb (String.eqb (fst e) dir)) l.

(** [this.watcher] is created by the constructor when [opts.watch] is
    set. *)
Definition watcher (this : LoaderConfig) : bool := watch this.

Section Loader.

Variables (P : PathModule) (this : LoaderConfig).

(** [if (!dir.endsWith(path.sep)) dir += path.sep]. *)
Definition with_sep (dir : string) : string :=
  if endsWith dir (sep P) then dir else dir +:+ sep P.

(** [watch(dir = this.path, nested = this.nested)]. *)
Definition watch (dir : option string) (nested_ : option bool)
  (w : Watching) : Watching :=
  let dir := with_sep (default (path this) dir) in
  let nested := default (nested this) nested_ in
  if watcher this then
    if has dir (watchList w) then w
    else {| watchList := watchList w ++ [(dir, nested)];
            calls := calls w ++ [Add dir] |}
  else w.

(** [unwatch(dir = this.path)]. *)
Definition unwatch (dir : option string) (w : Watching) : Watching :=
  let dir := with_sep (default (path this) dir) in
  if watcher this then
    {| watchList := delete dir (watchList w);
       calls := calls w ++ [Unwatch dir] |}
  else w.

End Loader.

Inductive WatchOp :=
| OpWatch (dir : option string) (nested_ : option bool)
| OpUnwatch (dir : option string).

Definition step (P : PathModule) (this : LoaderConfig) (w : Watching)
  (op : WatchOp) : Watching :=
  match op with
  | OpWatch dir nested_ => watch P this dir nested_ w
  | OpUnwatch dir => unwatch P this dir w
  end.

Definition run (P : PathModule) (this : LoaderConfig) (ops : list WatchOp)
  (w : Watching) : Watching :=
  fold_left (step P this) ops w.

(** The loader as the constructor leaves it. *)
Definition no_watching : Watching := {| watchList := []; calls := [] |}.

(** The directories the watcher was told to watch and not told to stop
    watching since, in the order it was told. *)
Definition told (dirs : list string) (c : WatcherCall) : list string :=
  match c with
  | Add dir => dirs ++ [dir]
  | Unwatch dir => List.filter (fun d => negb (String.eqb d dir)) dirs
  end.

Definition watched_dirs (cs : list WatcherCall) : list string :=
  fold_left told cs [].

(** The watch list mirrors the watcher. *)
Definition mirrors (P : PathModule) (w : Watching) : Prop :=
  Forall (fun e => endsWith (fst e) (sep P) = true) (watchList w)
  /\ List.NoDup (map fst (watchList w))
  /\ map fst (watchList w) = watched_dirs (calls w).

End WatchList.

Ltac unfold_MS :=
  unfold bindS, retS, throwS, try_catchS, lift, emit_error, emit_load_many
    in *.


(* ===================================================================== *)
(** ** Properties                                                        *)
(* ===================================================================== *)

Ltac unfold_M :=
  unfold bind, ret, throw, modify, get_state, emit, try_catch in *.

Lemma lower_ascii_idempotent c :
  JS.lower_ascii (JS.lower_ascii c) = JS.lower_ascii c.
Proof. destruct c as [[] [] [] [] [] [] [] []]; reflexivity. Qed.

Lemma processName_idempotent name :
  processName (processName name) = processName name.
Proof.
  unfold processName.
  induction name as [|c r IH]; simpl; [reflexivity|].
  now rewrite lower_ascii_idempotent, IH.
Qed.

Lemma events_app tr1 tr2 : events (tr1 ++ tr2) = events tr1 ++ events tr2.
Proof.
  induction tr1 as [|e r IH]; simpl; [reflexivity|].
  destruct e; simpl; now rewrite IH.
Qed.

Section Equations.

Variable P : PathModule.
Variable this : LoaderConfig.
Variable host : Host.

Lemma initFile_run name filePath file st :
  initFile P this host name filePath file st =
  let n := nameOrDerived P this name filePath in
  let st0 := watched P this filePath st in
  match (if instantiate (classes this) then findConstructor this host n file
         else None) with
  | Some c =>
      let st1 := log (New c (nextRef st0)) (alloc st0) in
      match construct host c (params (classes this)) with
      | Some e => (Throw (Thrown e), st1)
      | None => (Ok (Instance (nextRef st0)),
                 registered filePath n (Instance (nextRef st0)) st1)
      end
  | None => (Ok (RawModule file),
             set_fileMap <[filePath := RawModule file]> st0)
  end.
Proof.
  unfold initFile, initFile_body, watcher_add, new_, watched.
  unfold_M. cbv zeta.
  destruct (watch this); simpl;
    destruct (instantiate (classes this)); simpl; try reflexivity;
    destruct (findConstructor this host _ file); simpl; try reflexivity;
    destruct (construct host _ _); reflexivity.
Qed.

Lemma loadFromPath_run filePath name emit_ st :
  loadFromPath P this host filePath name emit_ st =
  match fileMap st !! filePath with
  | Some oldInstance => (Ok oldInstance, st)
  | None =>
      let st0 := log (ImportFile filePath) st in
      match import_ host filePath with
      | inl e => (Throw (FileLoadError (Thrown e) filePath), st0)
      | inr mdl =>
          match initFile P this host name filePath mdl st0 with
          | (Ok file, st1) =>
              (Ok file, if emit_ then log (Emit (EvLoad name file)) st1
                        else st1)
          | (Throw e, st1) => (Throw e, st1)
          end
      end
  end.
Proof.
  unfold loadFromPath, importFile. unfold_M.
  destruct (fileMap st !! filePath); [reflexivity|]. cbv zeta.
  destruct (import_ host filePath); [reflexivity|].
  destruct (initFile P this host name filePath _ _) as [[file|e] st1]; [|reflexivity].
  destruct emit_; reflexivity.
Qed.

Lemma unloadFromPath_run filePath emit_ st :
  unloadFromPath P this filePath emit_ st =
  match fileMap st !! filePath with
  | None => (Ok None, st)
  | Some instance =>
      let st0 := unwatched P this filePath st in
      let name := nameMap st !! instance in
      let finish st1 :=
        let st2 := unregistered filePath name instance st1 in
        (Ok (Some instance),
         if emit_ then log (Emit (EvUnload instance)) st2 else st2) in
      match destroy (classes this) with
      | None => finish st0
      | Some d =>
          let st1 := log (DestroyHook instance) st0 in
          match d instance with
          | Some e =>
              (Throw (DestroyFileError (Thrown e) filePath instance), st1)
          | None => finish st1
          end
      end
  end.
Proof.
  unfold unloadFromPath, watcher_unwatch, call_destroy, unwatched.
  unfold_M.
  destruct (fileMap st !! filePath) as [instance|]; [|reflexivity].
  cbv zeta.
  destruct (watch this); simpl;
    (destruct (destroy (classes this)) as [d|]; simpl;
     [destruct (d instance)|]; simpl; destruct emit_; reflexivity).
Qed.

Lemma reloadFromPath_run filePath st :
  reloadFromPath P this host filePath st =
  let st0 := log (CacheDelete filePath) st in
  match unloadFromPath P this filePath true st0 with
  | (Ok (Some oldInstance), st1) =>
      match loadFromPath P this host filePath (nameMap st1 !! oldInstance) false st1 with
      | (Ok newInstance, st2) =>
          match call_reload this newInstance oldInstance st2 with
          | (Ok _, st3) =>
              (Ok (Some newInstance),
               log (Emit (EvReload newInstance oldInstance)) st3)
          | (Throw e, st3) => (Throw e, st3)
          end
      | (Throw e, st2) => (Throw e, st2)
      end
  | (Ok None, st1) => (Ok None, st1)
  | (Throw e, st1) => (Throw e, st1)
  end.
Proof.
  unfold reloadFromPath. unfold_M. cbv zeta.
  destruct (unloadFromPath P this filePath true _) as [[[old|]|e] st1];
    reflexivity.
Qed.

End Equations.

Section Lifecycle.

Variable P : PathModule.
Variable this : LoaderConfig.
Variable host : Host.

(** *** Loading *)

Lemma initFile_stores name filePath file st u st1 :
  initFile P this host name filePath file st = (Ok u, st1) ->
  fileMap st1 !! filePath = Some u.
Proof.
  rewrite initFile_run. cbv zeta.
  destruct (if instantiate (classes this) then _ else _) as [c|].
  - destruct (construct host c _); [discriminate|].
    intros [= <- <-]. simpl. apply lookup_insert_eq.
  - intros [= <- <-]. simpl. apply lookup_insert_eq.
Qed.

Lemma loadFromPath_stores filePath name emit_ st u st1 :
  loadFromPath P this host filePath name emit_ st = (Ok u, st1) ->
  fileMap st1 !! filePath = Some u.
Proof.
  rewrite loadFromPath_run.
  destruct (fileMap st !! filePath) as [old|] eqn:Hold.
  - intros [= <- <-]. exact Hold.
  - cbv zeta. destruct (import_ host filePath) as [e|mdl]; [discriminate|].
    destruct (initFile P this host name filePath mdl _) as [[file|e] st2] eqn:Hinit;
      [|discriminate].
    intros [= <- <-]. apply initFile_stores in Hinit.
    destruct emit_; exact Hinit.
Qed.

Lemma loadFromPath_loaded filePath name emit_ st u :
  fileMap st !! filePath = Some u ->
  loadFromPath P this host filePath name emit_ st = (Ok u, st).
Proof. intros H. rewrite loadFromPath_run, H. reflexivity. Qed.

(** C4. [loadFromPath] is idempotent on a loaded path: once a call has
    returned a unit for a path, any further call on that path (until it is
    unloaded) returns the same unit and leaves the whole state as it is,
    trace included: no module is resolved, no constructor is called, no
    event is emitted, no row is written. *)
Theorem loadFromPath_idempotent filePath name emit_ st u st1 name' emit_' :
  loadFromPath P this host filePath name emit_ st = (Ok u, st1) ->
  loadFromPath P this host filePath name' emit_' st1 = (Ok u, st1)
  /\ resolutions (trace (snd (loadFromPath P this host filePath name' emit_' st1)))
     = resolutions (trace st1).
Proof.
  intros H. apply loadFromPath_stores in H.
  rewrite (loadFromPath_loaded _ name' emit_' _ _ H). split; reflexivity.
Qed.

(** The effects of a successful [initFile] are not events. *)
Lemma initFile_trace name filePath file st u st1 :
  initFile P this host name filePath file st = (Ok u, st1) ->
  exists tr, trace st1 = trace st ++ tr /\ events tr = [].
Proof.
  rewrite initFile_run. cbv zeta. unfold watched.
  destruct (if instantiate (classes this) then _ else _) as [c|].
  - destruct (construct host c _); [discriminate|].
    intros [= <- <-]. destruct (watch this); simpl.
    + eexists [_; _]. split; [now rewrite <- app_assoc|reflexivity].
    + eexists [_]. split; reflexivity.
  - intros [= <- <-]. destruct (watch this); simpl.
    + eexists [_]. split; reflexivity.
    + exists []. split; [now rewrite app_nil_r|reflexivity].
Qed.

(** The [load] event carries the [name] argument of [loadFromPath] as it
    was passed. *)
Lemma loadFromPath_emits filePath name st u st1 :
  fileMap st !! filePath = None ->
  loadFromPath P this host filePath name true st = (Ok u, st1) ->
  exists tr, trace st1 = trace st ++ tr ++ [Emit (EvLoad name u)]
             /\ events tr = [].
Proof.
  intros Hnone. rewrite loadFromPath_run, Hnone. cbv zeta.
  destruct (import_ host filePath) as [e|mdl]; [discriminate|].
  destruct (initFile P this host name filePath mdl _) as [[file|e] st2] eqn:Hinit;
    [|discriminate].
  intros [= <- <-]. apply initFile_trace in Hinit as (tr & Htr & Hev).
  exists (ImportFile filePath :: tr). split; [|exact Hev].
  simpl in *. rewrite Htr. now rewrite <- !app_assoc.
Qed.

(** C10. A call of [loadFromPath] on a path that is not loaded, with no
    name argument, that returns a unit, ends by emitting [load] with
    [undefined] as its name: the event is the last effect, the only event
    of the call, and its payload is not the name [initFile] derived from
    the path. *)
Theorem loadFromPath_emits_undefined_name filePath st u st1 :
  fileMap st !! filePath = None ->
  loadFromPath P this host filePath None true st = (Ok u, st1) ->
  (exists tr, trace st1 = trace st ++ tr ++ [Emit (EvLoad None u)]
              /\ events tr = [])
  /\ events (trace st1) = events (trace st) ++ [EvLoad None u]
  /\ EvLoad None u
     <> EvLoad (Some (extractNameFromFilePath P this filePath)) u
  /\ nameOrDerived P this None filePath
     = extractNameFromFilePath P this filePath.
Proof.
  intros Hnone Hload.
  destruct (loadFromPath_emits _ _ _ _ _ Hnone Hload) as (tr & Htr & Hev).
  repeat split.
  - exists tr. split; assumption.
  - rewrite Htr, !events_app, Hev. reflexivity.
  - discriminate.
Qed.

(** C6 as amended. When instantiation is enabled and a constructor is
    found, [loadFromPath] on a path that is not loaded registers the new
    instance under the name it was given, or else the name derived from
    the path, lower-cased: these are the only rows written. The name of
    the constructor is not what is stored: looking up a name that is the
    registered one up to case finds the path, and looking up any other
    name, that of the constructor included, gives what it gave before
    the load. *)
Theorem loadFromPath_registers_given_or_derived_name
  filePath name emit_ st u st1 mdl c :
  fileMap st !! filePath = None ->
  instantiate (classes this) = true ->
  import_ host filePath = inr mdl ->
  findConstructor this host (nameOrDerived P this name filePath) mdl = Some c ->
  loadFromPath P this host filePath name emit_ st = (Ok u, st1) ->
  let n := nameOrDerived P this name filePath in
  u = Instance (nextRef st)
  /\ pathMap st1 = <[processName n := filePath]> (pathMap st)
  /\ nameMap st1 = <[u := n]> (nameMap st)
  /\ fileMap st1 = <[filePath := u]> (fileMap st)
  /\ findPathFromName st1 n = Some filePath
  /\ (processName (ctor_name c) <> processName n ->
      findPathFromName st1 (ctor_name c) = findPathFromName st (ctor_name c))
  /\ (forall name',
        findPathFromName st1 name'
        = if decide (processName name' = processName n) then Some filePath
          else findPathFromName st name').
Proof.
  intros Hnone Hinst Himp Hctor. rewrite loadFromPath_run, Hnone, Himp.
  cbv zeta. rewrite initFile_run, Hinst. cbv iota zeta. rewrite Hctor.
  destruct (construct host c _); [discriminate|].
  intros [= <- <-]. unfold watched, findPathFromName.
  destruct emit_, (watch this); simpl; repeat split;
    solve [apply lookup_insert_eq
          | intros Hne; now apply lookup_insert_ne
          | intros name'; destruct (decide _) as [->|Hne];
            [apply lookup_insert_eq|now apply lookup_insert_ne]].
Qed.

(** *** Unloading *)

Lemma unloadFromPath_absent filePath emit_ st :
  fileMap st !! filePath = None ->
  unloadFromPath P this filePath emit_ st = (Ok None, st).
Proof. intros H. rewrite unloadFromPath_run, H. reflexivity. Qed.

(** What a successful [unloadFromPath] leaves: the path row and the
    instance row are gone, and of the name rows the one whose key is the
    name exactly as [nameMap] held it. *)
Lemma unloadFromPath_rows filePath emit_ st u st1 :
  unloadFromPath P this filePath emit_ st = (Ok (Some u), st1) ->
  fileMap st !! filePath = Some u
  /\ fileMap st1 = delete filePath (fileMap st)
  /\ nameMap st1 = delete u (nameMap st)
  /\ pathMap st1 = Map_delete (nameMap st !! u) (pathMap st)
  /\ nextRef st1 = nextRef st.
Proof.
  rewrite unloadFromPath_run.
  destruct (fileMap st !! filePath) as [instance|] eqn:Hin; [|discriminate].
  cbv zeta. unfold unwatched.
  destruct (destroy (classes this)) as [d|]; [destruct (d instance)|];
    try discriminate;
    intros [= <- <-]; destruct emit_, (watch this); simpl;
    repeat split; reflexivity.
Qed.

(** After a successful [unloadFromPath] the unit it returns has no name:
    this is the state in which [reloadFromPath] asks for the old name. *)
Lemma unloadFromPath_forgets_name filePath emit_ st u st1 :
  unloadFromPath P this filePath emit_ st = (Ok (Some u), st1) ->
  nameMap st1 !! u = None.
Proof.
  intros H. apply unloadFromPath_rows in H as (_ & _ & -> & _).
  apply lookup_delete_eq.
Qed.

(** When the registered name is already in lower case, the three rows go
    together. *)
Lemma unloadFromPath_removes_lower_case_rows filePath emit_ st u st1 n :
  unloadFromPath P this filePath emit_ st = (Ok (Some u), st1) ->
  nameMap st !! u = Some n ->
  processName n = n ->
  fileMap st1 !! filePath = None
  /\ findPathFromName st1 n = None
  /\ nameMap st1 !! u = None.
Proof.
  intros H Hn Hlow. unfold findPathFromName.
  apply unloadFromPath_rows in H as (_ & -> & -> & -> & _).
  rewrite Hn. simpl. rewrite Hlow.
  repeat split; apply lookup_delete_eq.
Qed.

(** When it is not, the name row outlives the unit. *)
Lemma unloadFromPath_keeps_other_case_row filePath emit_ st u st1 n :
  unloadFromPath P this filePath emit_ st = (Ok (Some u), st1) ->
  nameMap st !! u = Some n ->
  processName n <> n ->
  findPathFromName st1 n = findPathFromName st n.
Proof.
  intros H Hn Hcase. unfold findPathFromName.
  apply unloadFromPath_rows in H as (_ & _ & _ & -> & _).
  rewrite Hn. simpl. apply lookup_delete_ne. congruence.
Qed.


(** *** Reloading *)

(** C3 as amended. On a path with no loaded unit [reloadFromPath] loads
    nothing: it deletes the entry of the module cache and returns no unit;
    no module is resolved, no row is written and no event (neither [load]
    nor [reload]) is emitted. *)
Theorem reloadFromPath_absent filePath st :
  fileMap st !! filePath = None ->
  reloadFromPath P this host filePath st
  = (Ok None, log (CacheDelete filePath) st)
  /\ fileMap (log (CacheDelete filePath) st) !! filePath = None
  /\ events (trace (log (CacheDelete filePath) st)) = events (trace st)
  /\ resolutions (trace (log (CacheDelete filePath) st))
     = resolutions (trace st).
Proof.
  intros H. rewrite reloadFromPath_run. cbv zeta.
  rewrite unloadFromPath_absent by exact H.
  repeat split; simpl.
  - exact H.
  - rewrite events_app, app_nil_r. reflexivity.
  - induction (trace st) as [|e r IH]; simpl; [reflexivity|].
    destruct e; simpl; now rewrite ?IH.
Qed.

(** The name [reloadFromPath] passes to [loadFromPath] is always
    [undefined]: the load that follows the unload works under the name
    derived from the path. *)
Lemma reloadFromPath_loads_unnamed filePath st old st1 :
  unloadFromPath P this filePath true (log (CacheDelete filePath) st)
  = (Ok (Some old), st1) ->
  reloadFromPath P this host filePath st
  = match loadFromPath P this host filePath None false st1 with
    | (Ok newInstance, st2) =>
        match call_reload this newInstance old st2 with
        | (Ok _, st3) =>
            (Ok (Some newInstance), log (Emit (EvReload newInstance old)) st3)
        | (Throw e, st3) => (Throw e, st3)
        end
    | (Throw e, st2) => (Throw e, st2)
    end.
Proof.
  intros H. rewrite reloadFromPath_run. cbv zeta. rewrite H.
  now rewrite (unloadFromPath_forgets_name _ _ _ _ _ H).
Qed.

(** *** The watcher *)

Lemma watcherFilePath_flat srcPath :
  nested this = false -> watcherFilePath P this srcPath = srcPath.
Proof. intros H. unfold watcherFilePath. now rewrite H. Qed.

Lemma onWatcherEvent_loaded srcPath st :
  is_Some (fileMap st !! watcherFilePath P this srcPath) ->
  onWatcherEvent P this host srcPath st
  = (Ok tt, snd (reloadFromPath P this host (watcherFilePath P this srcPath) st)).
Proof.
  intros H. unfold onWatcherEvent. unfold_M.
  now rewrite bool_decide_eq_true_2.
Qed.

Lemma onWatcherEvent_dropped srcPath st :
  fileMap st !! watcherFilePath P this srcPath = None ->
  onWatcherEvent P this host srcPath st = (Ok tt, st).
Proof.
  intros H. unfold onWatcherEvent. unfold_M.
  rewrite bool_decide_eq_false_2; [reflexivity|].
  rewrite H. now intros [? ?].
Qed.

End Lifecycle.

(** *** Construction *)

Lemma resolve_nonempty cwd p : Posix.resolve cwd p <> "".
Proof.
  unfold Posix.resolve. cbv zeta.
  destruct (Posix.is_slash (String.get 0 p) || Posix.is_slash (String.get 0 cwd))%bool.
  - intros H. apply (f_equal String.length) in H. simpl in H.
    discriminate H.
  - destruct (Posix.normalizeString _ _); discriminate.
Qed.

(** C7 as amended. [new Loader(opts)] with a root path that is not empty
    does not throw [ConfigError]: the loader it makes always has a
    main-file rule, so nesting without a configured rule is not rejected;
    the rule is then ['index'] followed by the extension of the running
    file. *)
Theorem new_Loader_no_ConfigError cwd fileExt opts :
  opt_path opts <> "" ->
  exists this st autoLoad,
    new_Loader (Posix.path cwd) fileExt opts = Ok (this, st, autoLoad)
    /\ nested this = default false (opt_nested opts)
    /\ mainFile_truthy (mainFile this) = true
    /\ (opt_mainFile opts = None ->
        mainFile this = MainFileName ("index" +:+ fileExt)).
Proof.
  intros _.
  assert (Hm : mainFile_truthy
            match opt_mainFile opts with
            | Some m => if mainFile_truthy m then m
                        else MainFileName ("index" +:+ fileExt)
            | None => MainFileName ("index" +:+ fileExt)
            end = true).
  { destruct (opt_mainFile opts) as [m|]; [|reflexivity].
    destruct (mainFile_truthy m) eqn:E; [exact E|reflexivity]. }
  unfold new_Loader. rewrite Hm, andb_false_r, !orb_false_r.
  change (resolve (Posix.path cwd) (opt_path opts))
    with (Posix.resolve cwd (opt_path opts)).
  pose proof (resolve_nonempty cwd (opt_path opts)) as Hne.
  destruct (Posix.resolve cwd (opt_path opts)) as [|c r]; [congruence|].
  cbn [JS.truthy negb].
  eexists _, _, _. split; [reflexivity|]. cbn [nested mainFile].
  split; [reflexivity|]. split; [exact Hm|].
  intros ->. reflexivity.
Qed.

(* ===================================================================== *)
(** ** The identity table stays consistent                               *)
(* ===================================================================== *)

Lemma same_rows_refl st : same_rows st st.
Proof. repeat split; lia. Qed.

Lemma same_rows_trans st1 st2 st3 :
  same_rows st1 st2 -> same_rows st2 st3 -> same_rows st1 st3.
Proof.
  intros (Hf & Hn & Hp & Hr) (Hf' & Hn' & Hp' & Hr').
  repeat split; try congruence; lia.
Qed.

Lemma same_rows_log e st : same_rows st (log e st).
Proof. repeat split; simpl; lia. Qed.

Lemma same_rows_alloc st : same_rows st (alloc st).
Proof. repeat split; simpl; lia. Qed.

Create HintDb rows.

#[local] Hint Resolve same_rows_refl same_rows_log same_rows_alloc : rows.

Lemma Consistent_initial : Consistent initial_state.
Proof.
  split; simpl.
  - intros u n H. now rewrite lookup_empty in H.
  - intros u [n H]. now rewrite lookup_empty in H.
  - intros f r H. now rewrite lookup_empty in H.
  - intros f1 f2 r H. now rewrite lookup_empty in H.
Qed.

Lemma Consistent_same_rows st st' :
  Consistent st -> same_rows st st' -> Consistent st'.
Proof.
  intros [H1 H2 H3 H4] (Hf & Hn & Hp & Hr).
  split; rewrite ?Hf, ?Hn, ?Hp.
  - exact H1.
  - intros u Hu. destruct (H2 u Hu) as (r & -> & Hlt).
    exists r. split; [reflexivity|lia].
  - exact H3.
  - exact H4.
Qed.

(** Every stored instance was allocated before [nextRef]. *)
Lemma Consistent_stored_fresh st filePath r :
  Consistent st -> fileMap st !! filePath = Some (Instance r) ->
  (r < nextRef st)%nat.
Proof.
  intros [_ H2 H3 _] H. destruct (H2 _ (H3 _ _ H)) as (r' & [= ->] & Hlt).
  exact Hlt.
Qed.

(** Writing the three rows of a new instance. *)
Lemma Consistent_register st st' filePath n r :
  Consistent st ->
  fileMap st !! filePath = None ->
  name_available st filePath n ->
  (nextRef st <= r < nextRef st')%nat ->
  fileMap st' = <[filePath := Instance r]> (fileMap st) ->
  nameMap st' = <[Instance r := n]> (nameMap st) ->
  pathMap st' = <[processName n := filePath]> (pathMap st) ->
  Consistent st'.
Proof.
  intros Hc Hnone Hav Hr Hf Hn Hp.
  pose proof Hc as [H1 H2 H3 H4].
  assert (Hnew : nameMap st !! Instance r = None).
  { destruct (nameMap st !! Instance r) eqn:E; [|reflexivity].
    destruct (H2 (Instance r)) as (r' & [= <-] & Hlt); [eauto|lia]. }
  split; rewrite ?Hf, ?Hn, ?Hp.
  - intros u m Hu. destruct (decide (u = Instance r)) as [->|Hne].
    + rewrite lookup_insert_eq in Hu. injection Hu as <-.
      exists filePath. now rewrite !lookup_insert_eq.
    + rewrite lookup_insert_ne in Hu by congruence.
      destruct (H1 _ _ Hu) as (q & Hq & Hfq).
      assert (processName m <> processName n).
      { intros Heq. specialize (Hav _ _ Hu Heq). congruence. }
      exists q. rewrite lookup_insert_ne by congruence.
      rewrite lookup_insert_ne by congruence. now split.
  - intros u Hu. destruct (decide (u = Instance r)) as [->|Hne].
    + exists r. split; [reflexivity|lia].
    + rewrite lookup_insert_ne in Hu by congruence.
      destruct (H2 u Hu) as (r' & -> & Hlt). exists r'. split; [reflexivity|lia].
  - intros f r' Hfr. destruct (decide (f = filePath)) as [->|Hne].
    + rewrite lookup_insert_eq in Hfr. injection Hfr as <-.
      rewrite lookup_insert_eq. eauto.
    + rewrite lookup_insert_ne in Hfr by congruence.
      destruct (decide (Instance r' = Instance r)) as [->|Hne'].
      * rewrite lookup_insert_eq. eauto.
      * rewrite lookup_insert_ne by congruence. eauto.
  - intros f1 f2 r' Hf1 Hf2.
    destruct (decide (f1 = filePath)) as [->|Hne1];
      destruct (decide (f2 = filePath)) as [->|Hne2]; [reflexivity| | |].
    + rewrite lookup_insert_eq in Hf1. injection Hf1 as <-.
      rewrite lookup_insert_ne in Hf2 by congruence.
      pose proof (Consistent_stored_fresh _ _ _ Hc Hf2). lia.
    + rewrite lookup_insert_eq in Hf2. injection Hf2 as <-.
      rewrite lookup_insert_ne in Hf1 by congruence.
      pose proof (Consistent_stored_fresh _ _ _ Hc Hf1). lia.
    + rewrite lookup_insert_ne in Hf1, Hf2 by congruence. eauto.
Qed.

(** Storing a raw module writes the path row only. *)
Lemma Consistent_store_raw st st' filePath mdl :
  Consistent st ->
  fileMap st !! filePath = None ->
  fileMap st' = <[filePath := RawModule mdl]> (fileMap st) ->
  nameMap st' = nameMap st ->
  pathMap st' = pathMap st ->
  (nextRef st <= nextRef st')%nat ->
  Consistent st'.
Proof.
  intros [H1 H2 H3 H4] Hnone Hf Hn Hp Hr.
  split; rewrite ?Hf, ?Hn, ?Hp.
  - intros u m Hu. destruct (H1 _ _ Hu) as (q & Hq & Hfq).
    exists q. split; [exact Hq|].
    rewrite lookup_insert_ne by congruence. exact Hfq.
  - intros u Hu. destruct (H2 u Hu) as (r & -> & Hlt).
    exists r. split; [reflexivity|lia].
  - intros f r Hfr. destruct (decide (f = filePath)) as [->|Hne].
    + rewrite lookup_insert_eq in Hfr. discriminate.
    + rewrite lookup_insert_ne in Hfr by congruence. eauto.
  - intros f1 f2 r Hf1 Hf2.
    destruct (decide (f1 = filePath)) as [->|Hne1].
    { rewrite lookup_insert_eq in Hf1. discriminate. }
    destruct (decide (f2 = filePath)) as [->|Hne2].
    { rewrite lookup_insert_eq in Hf2. discriminate. }
    rewrite lookup_insert_ne in Hf1, Hf2 by congruence. eauto.
Qed.

(** Deleting the rows of a unit, the name row by the name as [nameMap]
    held it: the rows of the other units stay. *)
Lemma Consistent_unregister st st' filePath u :
  Consistent st ->
  fileMap st !! filePath = Some u ->
  fileMap st' = delete filePath (fileMap st) ->
  nameMap st' = delete u (nameMap st) ->
  pathMap st' = Map_delete (nameMap st !! u) (pathMap st) ->
  (nextRef st <= nextRef st')%nat ->
  Consistent st'.
Proof.
  intros Hc Hin Hf Hn Hp Hr. pose proof Hc as [H1 H2 H3 H4].
  split; rewrite ?Hf, ?Hn, ?Hp.
  - intros v m Hv. destruct (decide (v = u)) as [->|Hne].
    { now rewrite lookup_delete_eq in Hv. }
    rewrite lookup_delete_ne in Hv by congruence.
    destruct (H1 _ _ Hv) as (q & Hq & Hfq).
    exists q. split.
    + destruct (nameMap st !! u) as [nm|] eqn:Hnm; simpl; [|exact Hq].
      rewrite lookup_delete_ne; [exact Hq|].
      intros ->. destruct (H1 _ _ Hnm) as (q' & Hq' & Hfq').
      rewrite processName_idempotent, Hq in Hq'. congruence.
    + rewrite lookup_delete_ne; [exact Hfq|]. congruence.
  - intros v Hv. destruct (decide (v = u)) as [->|Hne].
    { rewrite lookup_delete_eq in Hv. now destruct Hv. }
    rewrite lookup_delete_ne in Hv by congruence.
    destruct (H2 v Hv) as (r & -> & Hlt). exists r. split; [reflexivity|lia].
  - intros f r Hfr. destruct (decide (f = filePath)) as [->|Hne].
    { now rewrite lookup_delete_eq in Hfr. }
    rewrite lookup_delete_ne in Hfr by congruence.
    rewrite lookup_delete_ne; [eauto|].
    intros ->. apply Hne. eapply H4; eauto.
  - intros f1 f2 r Hf1 Hf2.
    destruct (decide (f1 = filePath)) as [->|Hne1].
    { now rewrite lookup_delete_eq in Hf1. }
    destruct (decide (f2 = filePath)) as [->|Hne2].
    { now rewrite lookup_delete_eq in Hf2. }
    rewrite lookup_delete_ne in Hf1, Hf2 by congruence. eauto.
Qed.

Section Preservation.

Variable P : PathModule.
Variable this : LoaderConfig.

Lemma same_rows_watched filePath st : same_rows st (watched P this filePath st).
Proof. unfold watched. destruct (watch this); auto with rows. Qed.

Lemma same_rows_unwatched filePath st :
  same_rows st (unwatched P this filePath st).
Proof. unfold unwatched. destruct (watch this); auto with rows. Qed.

Lemma same_rows_call_reload new old st :
  same_rows st (snd (call_reload this new old st)).
Proof.
  unfold call_reload. unfold_M.
  destruct (reload_opt (classes this)) as [f|]; simpl; [|auto with rows].
  destruct (f new old); simpl; auto with rows.
Qed.

Lemma initFile_consistent host name filePath file st :
  Consistent st ->
  fileMap st !! filePath = None ->
  name_available st filePath (nameOrDerived P this name filePath) ->
  Consistent (snd (initFile P this host name filePath file st)).
Proof.
  intros Hc Hnone Hav. rewrite initFile_run. cbv zeta.
  pose proof (same_rows_watched filePath st) as (Hf & Hn & Hp & Hr).
  destruct (if instantiate (classes this) then _ else _) as [c|].
  - destruct (construct host c _); simpl.
    + apply (Consistent_same_rows st); [exact Hc|].
      repeat split; simpl; try assumption. lia.
    + eapply (Consistent_register st _ filePath _
                (nextRef (watched P this filePath st)));
        try eassumption;
        cbn [registered set_fileMap set_nameMap set_pathMap fileMap nameMap
             pathMap nextRef log alloc];
        rewrite ?Hf, ?Hn, ?Hp; try reflexivity; lia.
  - simpl. eapply (Consistent_store_raw st); try eassumption;
      cbn [set_fileMap fileMap nameMap pathMap nextRef];
      rewrite ?Hf, ?Hn, ?Hp; reflexivity || lia.
Qed.

Lemma loadFromPath_consistent host filePath name emit_ st :
  Consistent st ->
  (fileMap st !! filePath = None ->
   name_available st filePath (nameOrDerived P this name filePath)) ->
  Consistent (snd (loadFromPath P this host filePath name emit_ st)).
Proof.
  intros Hc Hav. rewrite loadFromPath_run.
  destruct (fileMap st !! filePath) as [old|] eqn:Hin; [exact Hc|].
  cbv zeta. destruct (import_ host filePath) as [e|mdl]; simpl.
  { eapply Consistent_same_rows; eauto with rows. }
  assert (Hc' : Consistent
            (snd (initFile P this host name filePath mdl
                    (log (ImportFile filePath) st)))).
  { apply initFile_consistent.
    - eapply Consistent_same_rows; eauto with rows.
    - exact Hin.
    - exact (Hav eq_refl). }
  destruct (initFile P this host name filePath mdl _) as [[file|e] st1];
    simpl in *; [|exact Hc'].
  destruct emit_; [|exact Hc'].
  eapply Consistent_same_rows; eauto with rows.
Qed.

Lemma unloadFromPath_consistent filePath emit_ st :
  Consistent st ->
  Consistent (snd (unloadFromPath P this filePath emit_ st)).
Proof.
  intros Hc. rewrite unloadFromPath_run.
  destruct (fileMap st !! filePath) as [u|] eqn:Hin; [|exact Hc].
  cbv zeta.
  pose proof (same_rows_unwatched filePath st) as (Hf & Hn & Hp & Hr).
  assert (Hfin : forall st1, same_rows st st1 ->
            Consistent (unregistered filePath (nameMap st !! u) u st1)).
  { intros st1 (Hf1 & Hn1 & Hp1 & Hr1).
    eapply (Consistent_unregister st _ filePath u); try eassumption;
      simpl; congruence. }
  destruct (destroy (classes this)) as [d|]; [destruct (d u)|]; simpl.
  - eapply Consistent_same_rows; [exact Hc|].
    eapply same_rows_trans; [apply same_rows_unwatched|auto with rows].
  - destruct emit_.
    + eapply Consistent_same_rows; [|apply same_rows_log]. apply Hfin.
      eapply same_rows_trans; [apply same_rows_unwatched|auto with rows].
    + apply Hfin.
      eapply same_rows_trans; [apply same_rows_unwatched|auto with rows].
  - destruct emit_.
    + eapply Consistent_same_rows; [|apply same_rows_log]. apply Hfin.
      apply same_rows_unwatched.
    + apply Hfin. apply same_rows_unwatched.
Qed.

Lemma name_available_same_rows st st' filePath n :
  same_rows st st' -> name_available st filePath n ->
  name_available st' filePath n.
Proof.
  intros (Hf & Hn & _) Hav u m. rewrite Hf, Hn. apply Hav.
Qed.

Lemma reloadFromPath_consistent host filePath st :
  Consistent st ->
  name_available st filePath (extractNameFromFilePath P this filePath) ->
  Consistent (snd (reloadFromPath P this host filePath st)).
Proof.
  intros Hc Hav. rewrite reloadFromPath_run. cbv zeta.
  set (st0 := log (CacheDelete filePath) st).
  assert (Hc0 : Consistent st0).
  { eapply Consistent_same_rows; eauto with rows. }
  assert (Hav0 : name_available st0 filePath
                   (extractNameFromFilePath P this filePath)).
  { eapply name_available_same_rows; eauto with rows. }
  pose proof (unloadFromPath_consistent filePath true st0 Hc0) as Hc1.
  destruct (unloadFromPath P this filePath true st0) as [[[old|]|e] st1] eqn:Hun;
    simpl in *; try exact Hc1.
  pose proof (unloadFromPath_forgets_name _ _ _ _ _ _ _ Hun) as Hforgot.
  apply unloadFromPath_rows in Hun as (Hin & Hf1 & Hn1 & Hp1 & Hr1).
  rewrite Hforgot.
  assert (Hc2 : Consistent
            (snd (loadFromPath P this host filePath None false st1))).
  { apply loadFromPath_consistent; [exact Hc1|].
    intros _ u m Hu Heq. exfalso.
    rewrite Hn1 in Hu. destruct (decide (u = old)) as [->|Hne].
    - now rewrite lookup_delete_eq in Hu.
    - rewrite lookup_delete_ne in Hu by congruence.
      specialize (Hav0 u m Hu Heq). congruence. }
  destruct (loadFromPath P this host filePath None false st1)
    as [[new|e] st2]; simpl in *; [|exact Hc2].
  pose proof (same_rows_call_reload new old st2) as Hrows.
  destruct (call_reload this new old st2) as [[[]|e] st3]; simpl in *.
  - eapply Consistent_same_rows; [exact Hc2|].
    eapply same_rows_trans; [exact Hrows|auto with rows].
  - eapply Consistent_same_rows; eauto.
Qed.

Lemma truthy_Some o :
  JS.truthy o = true -> exists s, o = Some s /\ default "" o = s.
Proof. destruct o as [[|c r]|]; simpl; try discriminate; eauto. Qed.

Lemma exec_consistent host op st :
  Consistent st ->
  registers_available_name P this st op ->
  Consistent (exec P this host op st).
Proof.
  intros Hc Hop. destruct op as [f n e|f e|f|n|n|src]; simpl in *.
  - now apply loadFromPath_consistent.
  - now apply unloadFromPath_consistent.
  - now apply reloadFromPath_consistent.
  - unfold unload. unfold_M.
    destruct (JS.truthy (findPathFromName st n)); simpl; [|exact Hc].
    now apply unloadFromPath_consistent.
  - unfold reload. unfold_M.
    destruct (JS.truthy (findPathFromName st n)) eqn:E; simpl; [|exact Hc].
    apply truthy_Some in E as (s & Hs & ->).
    apply reloadFromPath_consistent; auto.
  - unfold onWatcherEvent. unfold_M.
    destruct (bool_decide _); simpl; [|exact Hc].
    now apply reloadFromPath_consistent.
Qed.

Lemma Reachable_consistent st : Reachable P this st -> Consistent st.
Proof.
  induction 1 as [|st host op _ IH Hop].
  - apply Consistent_initial.
  - now apply exec_consistent.
Qed.

(** C8 as amended. In every state a loader reaches by its operations, as
    long as no operation registers a logical name that another loaded
    unit holds (compared in lower case), each loaded unit that is an
    instantiated object makes the round trip: its instance has a name,
    that name resolves to the path the unit is stored at, and the unit
    stored at that path is that instance. A raw module kept without
    instantiation has no name, so it makes no round trip. *)
Theorem loaded_instance_round_trip st filePath u :
  Reachable P this st ->
  fileMap st !! filePath = Some u ->
  match u with
  | Instance _ =>
      round_trip st filePath u
      /\ (forall n, nameMap st !! u = Some n ->
                    findPathFromName st n = Some filePath)
  | RawModule _ => nameMap st !! u = None /\ ~ round_trip st filePath u
  end.
Proof.
  intros Hreach Hin. apply Reachable_consistent in Hreach as [H1 H2 H3 H4].
  destruct u as [r|mdl].
  - destruct (H3 _ _ Hin) as [n Hn].
    assert (Hrt : forall m, nameMap st !! Instance r = Some m ->
                    pathMap st !! processName m = Some filePath).
    { intros m Hm. destruct (H1 _ _ Hm) as (q & Hq & Hfq).
      now rewrite (H4 _ _ _ Hin Hfq). }
    split; [|exact Hrt].
    exists n. repeat split; auto.
  - assert (Hnone : nameMap st !! RawModule mdl = None).
    { destruct (nameMap st !! RawModule mdl) eqn:E; [|reflexivity].
      destruct (H2 (RawModule mdl)) as (r & [=] & _). eauto. }
    split; [exact Hnone|].
    intros (n & Hn & _). rewrite Hnone in Hn. discriminate Hn.
Qed.

End Preservation.

(* ===================================================================== *)
(** ** The loader at work                                                *)
(* ===================================================================== *)

Section Runs.

Import Examples.

(** C1. A flat loader loads [/d/Foo.ts]: the unit is named [Foo] and its
    path is registered under [foo]. [unloadFromPath] then returns the
    unit, removes the path row and the instance row, and deletes the key
    [Foo] of [pathMap], which is not there: the row [foo] stays, the name
    still resolves, and [reload('Foo')] finds the path and returns no
    unit where [FileNotFoundError] is due. *)
Theorem unloadFromPath_keeps_mixed_case_name_row :
  nameMap Foo_loaded !! Instance 0 = Some "Foo"
  /\ pathMap Foo_loaded !! "foo" = Some "/d/Foo.ts"
  /\ fst (unloadFromPath posix flat "/d/Foo.ts" true Foo_loaded)
     = Ok (Some (Instance 0))
  /\ fileMap Foo_unloaded !! "/d/Foo.ts" = None
  /\ nameMap Foo_unloaded !! Instance 0 = None
  /\ findPathFromName Foo_unloaded "Foo" = Some "/d/Foo.ts"
  /\ fst (reload posix flat host "Foo" Foo_unloaded) = Ok None
  /\ fst (reload posix flat host "Foo" Foo_unloaded)
     <> Throw (FileNotFoundError "Foo").
Proof. vm_compute. repeat split; discriminate. Qed.

(** C2. [/d/a.ts] is loaded under the name [custom] and reloaded by path.
    The effects come in the specified order (unload event, import,
    constructor, reload event, and no load event), but the new instance is
    registered under [a], the name derived from the path: [custom], the
    name the table held for the old instance, resolves to nothing. *)
Theorem reloadFromPath_loses_registered_name :
  nameMap custom_loaded !! Instance 0 = Some "custom"
  /\ findPathFromName custom_loaded "custom" = Some "/d/a.ts"
  /\ fst (reloadFromPath posix flat host "/d/a.ts" custom_loaded)
     = Ok (Some (Instance 1))
  /\ trace custom_reloaded
     = trace custom_loaded
       ++ [CacheDelete "/d/a.ts"; Emit (EvUnload (Instance 0));
           ImportFile "/d/a.ts"; New Alpha 1;
           Emit (EvReload (Instance 1) (Instance 0))]
  /\ nameMap custom_reloaded !! Instance 1 = Some "a"
  /\ findPathFromName custom_reloaded "a" = Some "/d/a.ts"
  /\ findPathFromName custom_reloaded "custom" = None.
Proof. vm_compute. repeat split. Qed.

(** C9. The nested loader rooted at [/mods] has loaded the unit of
    [/mods/bakery/main.ts]. A change inside that unit's directory, or of
    the main file itself, is folded to [bakery], which is no key of
    [fileMap]: the notification is dropped and nothing is reloaded. *)
Theorem watcher_drops_nested_change :
  fileMap bakery_loaded !! "/mods/bakery/main.ts" = Some (Instance 0)
  /\ watcherFilePath posix nested_watch "/mods/bakery/lib/x.ts" = "bakery"
  /\ watcherFilePath posix nested_watch "/mods/bakery/main.ts" = "bakery"
  /\ watcherFilePath posix nested_watch "/mods/bakery/lib/x.ts"
     <> "/mods/bakery/main.ts"
  /\ onWatcherEvent posix nested_watch host "/mods/bakery/lib/x.ts"
       bakery_loaded = (Ok tt, bakery_loaded)
  /\ onWatcherEvent posix nested_watch host "/mods/bakery/main.ts"
       bakery_loaded = (Ok tt, bakery_loaded)
  /\ snd (reloadFromPath posix nested_watch host "/mods/bakery/main.ts"
            bakery_loaded) <> bakery_loaded.
Proof. vm_compute. repeat split; discriminate. Qed.

(** C3, as stated, fails on a new flat loader and [/d/a.ts]: a plain load
    resolves the module and registers the unit, [reloadFromPath] resolves
    nothing, registers nothing and returns no unit. *)
Lemma reloadFromPath_absent_loads_nothing :
  fileMap initial_state !! "/d/a.ts" = None
  /\ fst (loadFromPath posix flat host "/d/a.ts" None false initial_state)
     = Ok (Instance 0)
  /\ fileMap (after (loadFromPath posix flat host "/d/a.ts" None false)
                initial_state) !! "/d/a.ts" = Some (Instance 0)
  /\ fst (reloadFromPath posix flat host "/d/a.ts" initial_state) = Ok None
  /\ fileMap (after (reloadFromPath posix flat host "/d/a.ts")
                initial_state) !! "/d/a.ts" = None
  /\ resolutions (trace (after (reloadFromPath posix flat host "/d/a.ts")
                           initial_state)) = [].
Proof. vm_compute. repeat split. Qed.

(** C6, as stated, fails on a new flat loader and [/d/a.ts], whose default
    export is the class [Alpha]: the path is registered under [a], and
    [Alpha] resolves to nothing. *)
Lemma constructor_name_is_not_registered :
  instantiate (classes flat) = true
  /\ findConstructor flat host "a" 1 = Some Alpha
  /\ fileMap a_loaded !! "/d/a.ts" = Some (Instance 0)
  /\ findPathFromName a_loaded (ctor_name Alpha) = None
  /\ findPathFromName a_loaded "a" = Some "/d/a.ts"
  /\ nameMap a_loaded !! Instance 0 = Some "a".
Proof. vm_compute. repeat split. Qed.

(** C7, as stated, fails on [{ path: '/mods', nested: true }]: the loader
    is constructed, with [index.ts] as its main file. *)
Lemma nested_without_mainFile_is_accepted :
  opt_nested nested_without_mainFile = Some true
  /\ opt_mainFile nested_without_mainFile = None
  /\ new_Loader posix ".ts" nested_without_mainFile <> Throw ConfigError
  /\ exists this st autoLoad,
       new_Loader posix ".ts" nested_without_mainFile
       = Ok (this, st, autoLoad)
       /\ nested this = true
       /\ mainFile this = MainFileName "index.ts".
Proof.
  repeat split; try discriminate.
  eexists _, _, _. vm_compute. repeat split.
Qed.

(** C8, as stated, fails for a raw module: loaded without instantiation,
    [/d/a.ts] is stored at its path and has neither a name nor a name that
    resolves to its path. *)
Lemma raw_module_has_no_round_trip :
  fileMap a_raw !! "/d/a.ts" = Some (RawModule 1)
  /\ nameMap a_raw !! RawModule 1 = None
  /\ findPathFromName a_raw "a" = None
  /\ ~ round_trip a_raw "/d/a.ts" (RawModule 1).
Proof.
  repeat split; try (vm_compute; reflexivity).
  intros (n & Hn & _). vm_compute in Hn. discriminate.
Qed.

(** Two loaded instances whose names differ in case only share one name
    row: the first one loaded no longer makes the round trip. *)
Lemma name_collision_breaks_round_trip :
  fileMap a_and_A_loaded !! "/d/a.ts" = Some (Instance 0)
  /\ fileMap a_and_A_loaded !! "/e/A.ts" = Some (Instance 1)
  /\ nameMap a_and_A_loaded !! Instance 0 = Some "a"
  /\ nameMap a_and_A_loaded !! Instance 1 = Some "A"
  /\ findPathFromName a_and_A_loaded "a" = Some "/e/A.ts"
  /\ ~ round_trip a_and_A_loaded "/d/a.ts" (Instance 0)
  /\ ~ name_available a_loaded "/e/A.ts"
        (nameOrDerived posix flat None "/e/A.ts").
Proof.
  repeat split; try (vm_compute; reflexivity).
  - intros (n & Hn & Hp & _). vm_compute in Hn. injection Hn as <-.
    vm_compute in Hp. discriminate.
  - intros H. specialize (H (Instance 0) "a" eq_refl eq_refl).
    vm_compute in H. discriminate.
Qed.

(** *** The theorems at these loaders *)

Lemma loadFromPath_idempotent_witness :
  loadFromPath posix flat host "/d/a.ts" None true initial_state
  = (Ok (Instance 0), a_loaded)
  /\ loadFromPath posix flat host "/d/a.ts" (Some "again") true a_loaded
     = (Ok (Instance 0), a_loaded)
  /\ resolutions
       (trace (snd (loadFromPath posix flat host "/d/a.ts" (Some "again")
                      true a_loaded)))
     = resolutions (trace a_loaded).
Proof.
  split; [reflexivity|].
  apply (loadFromPath_idempotent posix flat host "/d/a.ts" None true
           initial_state (Instance 0) a_loaded (Some "again") true).
  reflexivity.
Defined.

Lemma loadFromPath_emits_undefined_name_witness :
  fileMap initial_state !! "/d/a.ts" = None
  /\ events (trace a_loaded)
     = events (trace initial_state) ++ [EvLoad None (Instance 0)].
Proof.
  split; [reflexivity|].
  apply (loadFromPath_emits_undefined_name posix flat host "/d/a.ts"
           initial_state (Instance 0) a_loaded); reflexivity.
Defined.

Lemma loadFromPath_registers_given_or_derived_name_witness :
  findConstructor flat host "a" 1 = Some Alpha
  /\ pathMap a_loaded = <[processName "a" := "/d/a.ts"]> (pathMap initial_state)
  /\ findPathFromName a_loaded "a" = Some "/d/a.ts"
  /\ findPathFromName a_loaded (ctor_name Alpha)
     = findPathFromName initial_state (ctor_name Alpha).
Proof.
  split; [reflexivity|].
  destruct (loadFromPath_registers_given_or_derived_name posix flat host
              "/d/a.ts" None true initial_state (Instance 0) a_loaded 1%nat
              Alpha eq_refl eq_refl eq_refl eq_refl eq_refl)
    as (_ & Hp & _ & _ & Hfind & Hctor & _).
  split; [exact Hp|]. split; [exact Hfind|].
  apply Hctor. vm_compute. discriminate.
Defined.


Lemma reloadFromPath_absent_witness :
  fileMap a_loaded !! "/d/Foo.ts" = None
  /\ reloadFromPath posix flat host "/d/Foo.ts" a_loaded
     = (Ok None, log (CacheDelete "/d/Foo.ts") a_loaded).
Proof.
  split; [reflexivity|].
  apply (reloadFromPath_absent posix flat host "/d/Foo.ts" a_loaded).
  reflexivity.
Defined.

Lemma new_Loader_no_ConfigError_witness :
  opt_path nested_without_mainFile <> ""
  /\ opt_nested nested_without_mainFile = Some true
  /\ opt_mainFile nested_without_mainFile = None
  /\ exists this st autoLoad,
       new_Loader (Posix.path "/home/app") ".ts" nested_without_mainFile
       = Ok (this, st, autoLoad)
       /\ nested this = true
       /\ mainFile this = MainFileName ("index" +:+ ".ts").
Proof.
  split; [discriminate|]. split; [reflexivity|]. split; [reflexivity|].
  destruct (new_Loader_no_ConfigError "/home/app" ".ts"
              nested_without_mainFile) as (this & st & autoLoad & H1 & H2 & _ & H4);
    [discriminate|].
  exists this, st, autoLoad.
  split; [exact H1|]. split; [exact H2|]. apply H4. reflexivity.
Defined.

Lemma loaded_instance_round_trip_witness :
  Reachable posix flat a_loaded
  /\ round_trip a_loaded "/d/a.ts" (Instance 0).
Proof.
  assert (H : Reachable posix flat a_loaded).
  { apply (Reachable_step posix flat initial_state host
             (OpLoadFromPath "/d/a.ts" None true)).
    - apply Reachable_new.
    - intros _ u n Hu. vm_compute in Hu. discriminate. }
  split; [exact H|].
  apply (loaded_instance_round_trip posix flat a_loaded "/d/a.ts" (Instance 0) H).
  reflexivity.
Defined.

End Runs.

(* ===================================================================== *)
(** ** Failures, round trips and compositions of the operations          *)
(* ===================================================================== *)

Section Compositions.

Variable P : PathModule.
Variable this : LoaderConfig.
Variable host : Host.

Lemma same_rows_emit_if (b : bool) e st :
  same_rows st (if b then log e st else st).
Proof. destruct b; auto with rows. Qed.

(** The rows after a successful load of a path that was not loaded: a raw
    module gets the path row only, an instance the three rows. *)
Lemma loadFromPath_rows filePath name emit_ st u st1 :
  fileMap st !! filePath = None ->
  loadFromPath P this host filePath name emit_ st = (Ok u, st1) ->
  fileMap st1 = <[filePath := u]> (fileMap st)
  /\ ((exists mdl, u = RawModule mdl
                   /\ nameMap st1 = nameMap st
                   /\ pathMap st1 = pathMap st
                   /\ nextRef st1 = nextRef st)
      \/ (u = Instance (nextRef st)
          /\ nameMap st1
             = <[u := nameOrDerived P this name filePath]> (nameMap st)
          /\ pathMap st1
             = <[processName (nameOrDerived P this name filePath) := filePath]>
                 (pathMap st)
          /\ nextRef st1 = S (nextRef st))).
Proof.
  intros Hnone. rewrite loadFromPath_run, Hnone. cbv zeta.
  destruct (import_ host filePath) as [e|mdl]; [discriminate|].
  rewrite initFile_run. cbv zeta. unfold watched.
  destruct (if instantiate (classes this) then _ else _) as [c|].
  - destruct (construct host c _); [discriminate|].
    intros [= <- <-]. destruct emit_, (watch this); simpl;
      (split; [reflexivity|right; repeat split; reflexivity]).
  - intros [= <- <-]. destruct emit_, (watch this); simpl;
      (split; [reflexivity|left; eexists; repeat split; reflexivity]).
Qed.

(** X1. When the module system cannot resolve a path that is not loaded,
    [loadFromPath] fails with [FileLoadError] carrying the cause and the
    path; nothing but the attempt is recorded: the three maps are as they
    were, no event is emitted, and the path is still not loaded, so a
    later call tries again. *)
Theorem loadFromPath_import_failure filePath name emit_ st cause :
  fileMap st !! filePath = None ->
  import_ host filePath = inl cause ->
  exists st1,
    loadFromPath P this host filePath name emit_ st
    = (Throw (FileLoadError (Thrown cause) filePath), st1)
    /\ trace st1 = trace st ++ [ImportFile filePath]
    /\ same_rows st st1
    /\ nextRef st1 = nextRef st
    /\ events (trace st1) = events (trace st)
    /\ fileMap st1 !! filePath = None.
Proof.
  intros Hnone Himp. rewrite loadFromPath_run, Hnone, Himp. cbv zeta.
  eexists. split; [reflexivity|].
  split; [reflexivity|]. split; [apply same_rows_log|].
  split; [reflexivity|]. split; [|exact Hnone].
  simpl. rewrite events_app. simpl. apply app_nil_r.
Qed.

(** X2. When the constructor found for a module throws, [loadFromPath]
    lets the error through as it is (it is not a [FileLoadError]); no row
    is written and no event is emitted, but a loader that watches has
    already added the path of the unit to its watcher. *)
Theorem loadFromPath_constructor_failure filePath name emit_ st mdl c cause :
  fileMap st !! filePath = None ->
  import_ host filePath = inr mdl ->
  instantiate (classes this) = true ->
  findConstructor this host (nameOrDerived P this name filePath) mdl = Some c ->
  construct host c (params (classes this)) = Some cause ->
  exists st1,
    loadFromPath P this host filePath name emit_ st = (Throw (Thrown cause), st1)
    /\ same_rows st st1
    /\ fileMap st1 !! filePath = None
    /\ events (trace st1) = events (trace st)
    /\ trace st1
       = trace st ++ [ImportFile filePath]
         ++ (if watch this
             then [WatcherAdd (getWatchPath P this filePath)] else [])
         ++ [New c (nextRef st)].
Proof.
  intros Hnone Himp Hinst Hctor Hthrow.
  rewrite loadFromPath_run, Hnone, Himp. cbv zeta.
  rewrite initFile_run, Hinst. cbv iota zeta. rewrite Hctor, Hthrow.
  eexists. split; [reflexivity|]. unfold watched, same_rows.
  destruct (watch this); simpl; rewrite ?events_app, <- ?app_assoc; simpl;
    rewrite ?app_nil_r; repeat split; auto.
Qed.

(** X3. Unloading twice: once [unloadFromPath] has returned the unit of a
    path, a second call finds nothing, returns no unit and leaves the
    state as it is: the destroy hook is not called again and no second
    [unload] event is emitted. *)
Theorem unloadFromPath_twice filePath emit_ emit_' st u st1 :
  unloadFromPath P this filePath emit_ st = (Ok (Some u), st1) ->
  unloadFromPath P this filePath emit_' st1 = (Ok None, st1)
  /\ fileMap st1 !! filePath = None.
Proof.
  intros H. apply unloadFromPath_rows in H as (_ & Hf & _).
  assert (Hnone : fileMap st1 !! filePath = None).
  { rewrite Hf. apply lookup_delete_eq. }
  split; [|exact Hnone]. now apply unloadFromPath_absent.
Qed.


(** *** Reloading a loaded path *)

Lemma unloadFromPath_succeeds filePath emit_ st u :
  fileMap st !! filePath = Some u ->
  destroy_ok this u ->
  exists st1, unloadFromPath P this filePath emit_ st = (Ok (Some u), st1).
Proof.
  intros Hin Hok. rewrite unloadFromPath_run, Hin. cbv zeta.
  unfold destroy_ok in Hok.
  destruct (destroy (classes this)) as [d|]; [rewrite Hok|]; eauto.
Qed.

Lemma unloadFromPath_events filePath st u st1 :
  unloadFromPath P this filePath true st = (Ok (Some u), st1) ->
  events (trace st1) = events (trace st) ++ [EvUnload u].
Proof.
  rewrite unloadFromPath_run.
  destruct (fileMap st !! filePath) as [instance|]; [|discriminate].
  cbv zeta. unfold unwatched.
  destruct (destroy (classes this)) as [d|]; [destruct (d instance)|];
    try discriminate;
    intros [= <- <-]; destruct (watch this); simpl;
    rewrite !events_app; simpl; rewrite ?app_nil_r; reflexivity.
Qed.



(** What a load does to [fileMap], however it ends: nothing, or one row
    at its path. *)
Lemma loadFromPath_fileMap filePath name emit_ st :
  fileMap (snd (loadFromPath P this host filePath name emit_ st)) = fileMap st
  \/ exists u,
       fileMap (snd (loadFromPath P this host filePath name emit_ st))
       = <[filePath := u]> (fileMap st).
Proof.
  rewrite loadFromPath_run.
  destruct (fileMap st !! filePath); [now left|]. cbv zeta.
  destruct (import_ host filePath) as [e|mdl]; [now left|].
  rewrite initFile_run. cbv zeta. unfold watched.
  destruct (if instantiate (classes this) then _ else _) as [c|];
    [destruct (construct host c _)|];
    destruct emit_, (watch this); simpl; eauto.
Qed.


(** X6. When the module can no longer be resolved, [reloadFromPath] of a
    loaded path fails with [FileLoadError] after the old unit was
    destroyed and unloaded: the path is left not loaded, the old unit has
    no name, and the only event is [unload]. *)
Theorem reloadFromPath_import_failure filePath st old cause :
  fileMap st !! filePath = Some old ->
  destroy_ok this old ->
  import_ host filePath = inl cause ->
  exists st',
    reloadFromPath P this host filePath st
    = (Throw (FileLoadError (Thrown cause) filePath), st')
    /\ fileMap st' = delete filePath (fileMap st)
    /\ fileMap st' !! filePath = None
    /\ nameMap st' !! old = None
    /\ events (trace st') = events (trace st) ++ [EvUnload old].
Proof.
  intros Hin Hok Himp. rewrite reloadFromPath_run. cbv zeta.
  set (st0 := log (CacheDelete filePath) st).
  destruct (unloadFromPath_succeeds filePath true st0 old Hin Hok)
    as (st1 & Hun).
  rewrite Hun.
  pose proof (unloadFromPath_events _ _ _ _ Hun) as Hev1.
  pose proof (unloadFromPath_forgets_name _ _ _ _ _ _ _ Hun) as Hforgot.
  apply unloadFromPath_rows in Hun as (_ & Hf1 & Hn1 & _).
  assert (Hnone1 : fileMap st1 !! filePath = None).
  { rewrite Hf1. apply lookup_delete_eq. }
  rewrite loadFromPath_run, Hnone1, Himp. cbv zeta.
  eexists. split; [reflexivity|]. simpl.
  split; [exact Hf1|]. split; [exact Hnone1|]. split; [exact Hforgot|].
  rewrite events_app, Hev1. simpl. rewrite events_app. simpl.
  now rewrite !app_nil_r.
Qed.


(** *** By name *)

(** X8. A name that resolves to no path: [unload] returns no unit,
    [reload] throws [FileNotFoundError] with the name as it was asked
    for; neither changes the state. *)
Theorem by_name_unknown name st :
  findPathFromName st name = None ->
  unload P this name st = (Ok None, st)
  /\ reload P this host name st = (Throw (FileNotFoundError name), st).
Proof.
  intros H. unfold unload, reload. unfold_M. rewrite H. split; reflexivity.
Qed.

(** X9. Names are looked up without regard to case: after a load that
    instantiates a unit at a non-empty path, [unload] and [reload] by any
    name equal to the registered one up to case act on that path. *)
Theorem by_name_any_case filePath name emit_ st r st1 name' :
  fileMap st !! filePath = None ->
  filePath <> "" ->
  loadFromPath P this host filePath name emit_ st = (Ok (Instance r), st1) ->
  processName name' = processName (nameOrDerived P this name filePath) ->
  unload P this name' st1 = unloadFromPath P this filePath true st1
  /\ reload P this host name' st1 = reloadFromPath P this host filePath st1.
Proof.
  intros Hnone Hne Hload Hcase.
  apply loadFromPath_rows in Hload as (_ & [(mdl & [=] & _)|(_ & _ & Hp & _)]);
    [|exact Hnone].
  assert (Hfind : findPathFromName st1 name' = Some filePath).
  { unfold findPathFromName. rewrite Hp, Hcase. apply lookup_insert_eq. }
  unfold unload, reload. unfold_M. rewrite Hfind.
  destruct filePath; [congruence|]. split; reflexivity.
Qed.

(** *** What the operations never do *)

Lemma no_new_path_same_rows st st' : same_rows st st' -> no_new_path st st'.
Proof. intros (Hf & _) f. now rewrite Hf. Qed.

Lemma no_new_path_trans st1 st2 st3 :
  no_new_path st1 st2 -> no_new_path st2 st3 -> no_new_path st1 st3.
Proof. intros H12 H23 f H. auto. Qed.

Lemma unloadFromPath_no_new_path filePath emit_ st :
  no_new_path st (snd (unloadFromPath P this filePath emit_ st)).
Proof.
  rewrite unloadFromPath_run.
  destruct (fileMap st !! filePath) as [u|]; [|now intros f].
  cbv zeta. unfold unwatched, unregistered.
  destruct (destroy (classes this)) as [d|]; [destruct (d u)|];
    destruct emit_, (watch this); simpl; intros f Hf; simpl in Hf;
    try exact Hf; now apply lookup_delete_is_Some in Hf as [_ Hf].
Qed.

Lemma reloadFromPath_no_new_path filePath st :
  no_new_path st (snd (reloadFromPath P this host filePath st)).
Proof.
  rewrite reloadFromPath_run. cbv zeta.
  set (st0 := log (CacheDelete filePath) st).
  assert (H0 : no_new_path st st0).
  { apply no_new_path_same_rows. apply same_rows_log. }
  pose proof (unloadFromPath_no_new_path filePath true st0) as H1.
  destruct (unloadFromPath P this filePath true st0)
    as [[[old|]|e] st1] eqn:Hun; simpl in *;
    try exact (no_new_path_trans _ _ _ H0 H1).
  apply unloadFromPath_rows in Hun as (Hin & Hf1 & _).
  assert (H2 : no_new_path st
            (snd (loadFromPath P this host filePath (nameMap st1 !! old)
                    false st1))).
  { intros f.
    destruct (loadFromPath_fileMap filePath (nameMap st1 !! old) false st1)
      as [->|(u & ->)].
    - intros H. apply H0, H1, H.
    - destruct (decide (f = filePath)) as [->|Hne].
      + intros _. simpl in Hin. eauto.
      + rewrite lookup_insert_ne by congruence. intros H. apply H0, H1, H. }
  destruct (loadFromPath P this host filePath (nameMap st1 !! old) false st1)
    as [[new|e] st2]; simpl in *; [|exact H2].
  pose proof (same_rows_call_reload this new old st2) as Hrows.
  destruct (call_reload this new old st2) as [[[]|e] st3]; simpl in *.
  - eapply no_new_path_trans; [exact H2|]. apply no_new_path_same_rows.
    eapply same_rows_trans; [exact Hrows|auto with rows].
  - eapply no_new_path_trans; [exact H2|].
    now apply no_new_path_same_rows.
Qed.

(** X10. Only [loadFromPath] makes a path loaded: after an unload, a
    reload (by path or by name) or a notification of the watcher, every
    loaded path was loaded before. In particular the watcher never loads
    a unit that was not loaded. *)
Theorem only_load_adds_paths op st :
  (forall filePath name emit_, op <> OpLoadFromPath filePath name emit_) ->
  no_new_path st (exec P this host op st).
Proof.
  intros Hop. destruct op as [f n e|f e|f|n|n|src]; simpl.
  - now destruct (Hop f n e).
  - apply unloadFromPath_no_new_path.
  - apply reloadFromPath_no_new_path.
  - unfold unload. unfold_M.
    destruct (JS.truthy (findPathFromName st n)); simpl;
      [apply unloadFromPath_no_new_path|now intros f].
  - unfold reload. unfold_M.
    destruct (JS.truthy (findPathFromName st n)); simpl;
      [apply reloadFromPath_no_new_path|now intros f].
  - unfold onWatcherEvent. unfold_M.
    destruct (bool_decide _); simpl;
      [apply reloadFromPath_no_new_path|now intros f].
Qed.

End Compositions.

(** X11. In every state a loader reaches (registering available names),
    the instance-to-name map names stored instances only: a unit with a
    name is an instance created before, its name resolves to a path, and
    that path holds the unit. *)
Theorem named_unit_is_stored P this st u n :
  Reachable P this st ->
  nameMap st !! u = Some n ->
  exists r filePath,
    u = Instance r
    /\ (r < nextRef st)%nat
    /\ findPathFromName st n = Some filePath
    /\ fileMap st !! filePath = Some u.
Proof.
  intros Hreach Hn. apply Reachable_consistent in Hreach as [H1 H2 H3 H4].
  destruct (H2 u) as (r & -> & Hlt); [eauto|].
  destruct (H1 _ _ Hn) as (f & Hp & Hf).
  exists r, f. repeat split; assumption.
Qed.

(** X12. In every such state an instance is stored at one path only: two
    paths never share an instance, and each stored instance was created
    before the next [new]. *)
Theorem instance_stored_at_one_path P this st f1 f2 r :
  Reachable P this st ->
  fileMap st !! f1 = Some (Instance r) ->
  fileMap st !! f2 = Some (Instance r) ->
  f1 = f2 /\ (r < nextRef st)%nat.
Proof.
  intros Hreach H1 H2. apply Reachable_consistent in Hreach as Hc.
  split.
  - eapply (instance_stored_once st Hc); eauto.
  - eapply Consistent_stored_fresh; eauto.
Qed.

(* ===================================================================== *)
(** ** The path the watcher's listener computes                          *)
(* ===================================================================== *)

Lemma string_append_nil b : "" +:+ b = b.
Proof. reflexivity. Qed.

Lemma string_append_cons c a b : String c a +:+ b = String c (a +:+ b).
Proof. reflexivity. Qed.

Lemma string_length_append a b :
  String.length (a +:+ b) = (String.length a + String.length b)%nat.
Proof.
  induction a as [|c a IH]; [reflexivity|].
  rewrite string_append_cons. simpl. now rewrite IH.
Qed.

Lemma string_append_assoc a b c : (a +:+ b) +:+ c = a +:+ (b +:+ c).
Proof.
  induction a as [|x a IH]; [reflexivity|].
  rewrite !string_append_cons. now rewrite IH.
Qed.

Lemma substring_whole s : String.substring 0 (String.length s) s = s.
Proof. induction s as [|c s IH]; simpl; [reflexivity|now rewrite IH]. Qed.

Lemma substring_append_l a b :
  String.substring 0 (String.length a) (a +:+ b) = a.
Proof.
  induction a as [|c a IH]; [now destruct b|].
  rewrite string_append_cons. simpl. now rewrite IH.
Qed.

Lemma substring_append_r a b n :
  String.substring (String.length a) n (a +:+ b) = String.substring 0 n b.
Proof.
  induction a as [|c a IH]; [reflexivity|].
  rewrite string_append_cons. simpl. exact IH.
Qed.

Lemma prefix_append a b : String.prefix a (a +:+ b) = true.
Proof. apply prefix_correct, substring_append_l. Qed.

Lemma index_cons a c s :
  String.index 0 a (String c s)
  = if String.prefix a (String c s) then Some O
    else match String.index 0 a s with
         | Some n => Some (S n)
         | None => None
         end.
Proof. reflexivity. Qed.

Lemma index_append_l a b : String.index 0 a (a +:+ b) = Some O.
Proof.
  destruct (a +:+ b) as [|c s] eqn:E.
  - destruct a; [reflexivity|discriminate].
  - rewrite index_cons, <- E, prefix_append. reflexivity.
Qed.

(** The first occurrence of a one-character separator after a segment
    that has none. *)
Lemma index_after_segment c seg rest :
  String.index 0 (String c "") seg = None ->
  String.index 0 (String c "") (seg +:+ String c rest)
  = Some (String.length seg).
Proof.
  induction seg as [|a seg IH].
  - intros _. rewrite string_append_nil, index_cons.
    change (String c rest) with (String c "" +:+ rest).
    now rewrite prefix_append.
  - rewrite string_append_cons, !index_cons.
    destruct (String.prefix (String c "") (String a seg)) eqn:Hp;
      [discriminate|].
    destruct (String.index 0 (String c "") seg) eqn:Hi; [discriminate|].
    intros _. rewrite (IH eq_refl).
    destruct (String.prefix (String c "") (String a (seg +:+ String c rest)))
      eqn:Hp'; [|reflexivity].
    apply prefix_correct in Hp'. simpl in Hp'. injection Hp' as ->.
    assert (String.prefix (String c "") (String c seg) = true) as Habs.
    { change (String c seg) with (String c "" +:+ seg). apply prefix_append. }
    congruence.
Qed.

Lemma JS_len_append a b : JS.len (a +:+ b) = JS.len a + JS.len b.
Proof. unfold JS.len. rewrite string_length_append. lia. Qed.

(** [s.substring(n, s.length)] drops the first [n] characters. *)
Lemma JS_substring_tail a b :
  JS.substring (a +:+ b) (JS.len a) (JS.len (a +:+ b)) = b.
Proof.
  unfold JS.substring, JS.clamp. rewrite JS_len_append. unfold JS.len.
  replace (Z.to_nat _) with (String.length a) by lia.
  replace (Z.to_nat _) with (String.length b) by lia.
  rewrite substring_append_r. apply substring_whole.
Qed.

(** [s.slice(0, -s.length + n)] keeps the first [n] characters, when
    there are more. *)
Lemma JS_slice_head a c b :
  JS.slice (a +:+ String c b) 0 (- JS.len (a +:+ String c b) + JS.len a) = a.
Proof.
  unfold JS.slice. cbv zeta.
  assert (HL : JS.len (a +:+ String c b) = JS.len a + 1 + JS.len b).
  { rewrite JS_len_append. unfold JS.len. simpl String.length. lia. }
  assert (Ha : 0 <= JS.len a) by (unfold JS.len; lia).
  assert (Hb : 0 <= JS.len b) by (unfold JS.len; lia).
  rewrite HL.
  change (0 <? 0) with false. cbv iota.
  replace (- (JS.len a + 1 + JS.len b) + JS.len a <? 0) with true
    by (symmetry; apply Z.ltb_lt; lia).
  replace (Z.max _ 0) with (JS.len a) by lia.
  replace (Z.min 0 _) with 0 by lia.
  destruct (0 <? JS.len a) eqn:E.
  - replace (Z.to_nat (JS.len a - 0)) with (String.length a)
      by (unfold JS.len; lia).
    apply substring_append_l.
  - destruct a; [reflexivity|].
    apply Z.ltb_ge in E. unfold JS.len in E. simpl String.length in E. lia.
Qed.

Section Watcher.

Variable P : PathModule.
Variable this : LoaderConfig.
Variable host : Host.

(** X13. In nested mode a change anywhere below [<root>/<unit>/] is
    folded to [<unit>], the bare name of the unit's directory, whatever
    the main file of the unit is; the notification is dropped unless a
    unit is stored under that bare name. *)
Theorem watcherFilePath_nested_is_directory_name c unit rest st :
  nested this = true ->
  sep P = String c "" ->
  JS.indexOf unit (sep P) = -1 ->
  let srcPath := path this +:+ sep P +:+ unit +:+ sep P +:+ rest in
  watcherFilePath P this srcPath = unit
  /\ (fileMap st !! unit = None ->
      onWatcherEvent P this host srcPath st = (Ok tt, st)).
Proof.
  intros Hnested Hsep Hunit srcPath.
  assert (Hfold : watcherFilePath P this srcPath = unit).
  { unfold watcherFilePath, srcPath. rewrite Hnested.
    unfold JS.indexOf at 1. rewrite index_append_l.
    change (Z.of_nat 0 =? 0) with true. cbv iota.
    rewrite <- (string_append_assoc (path this) (sep P)).
    rewrite <- JS_len_append, JS_substring_tail. cbv zeta.
    unfold JS.indexOf in *. rewrite Hsep in *.
    change (String c "" +:+ rest) with (String c rest).
    destruct (String.index 0 (String c "") unit) eqn:Hi; [lia|].
    rewrite (index_after_segment c unit rest Hi).
    destruct (Z.of_nat (String.length unit) =? -1) eqn:E;
      [apply Z.eqb_eq in E; lia|].
    apply (JS_slice_head unit c rest). }
  split; [exact Hfold|].
  intros Hnone. apply onWatcherEvent_dropped. now rewrite Hfold.
Qed.

End Watcher.

(* ===================================================================== *)
(** ** Batch loading and readiness                                       *)
(* ===================================================================== *)

Lemma batch_events_app l1 l2 :
  batch_events (l1 ++ l2) = batch_events l1 ++ batch_events l2.
Proof.
  induction l1 as [|[n e] r IH]; simpl; [reflexivity|].
  destruct e; simpl; now rewrite IH.
Qed.

Lemma calls_of_app cb l1 l2 :
  calls_of cb (l1 ++ l2) = (calls_of cb l1 + calls_of cb l2)%nat.
Proof.
  induction l1 as [|[n e] r IH]; simpl; [reflexivity|].
  destruct e; simpl; try exact IH.
  destruct (Nat.eqb cb cb0); simpl; now rewrite IH.
Qed.

Lemma ready_count_app l1 l2 :
  ready_count (l1 ++ l2) = (ready_count l1 + ready_count l2)%nat.
Proof.
  induction l1 as [|e r IH]; simpl; [reflexivity|].
  destruct e; simpl; now rewrite IH.
Qed.

Lemma occurrences_app cb l1 l2 :
  occurrences cb (l1 ++ l2) = (occurrences cb l1 + occurrences cb l2)%nat.
Proof.
  induction l1 as [|c r IH]; simpl; [reflexivity|].
  destruct (Nat.eqb cb c); simpl; now rewrite IH.
Qed.

Lemma imports_app tr1 tr2 : imports (tr1 ++ tr2) = imports tr1 ++ imports tr2.
Proof.
  induction tr1 as [|e r IH]; simpl; [reflexivity|].
  destruct e; simpl; now rewrite IH.
Qed.

Section Batch.

Variable P : PathModule.
Variable join : string -> string -> string.
Variable readdir : string -> string + list string.
Variable this : LoaderConfig.
Variable host : Host.

(** One turn of the loop of [loadFiles]. *)
Lemma loadEach_cons dir nested_ fileName rest instances s :
  loadEach P join this host dir nested_ (fileName :: rest) instances s
  = if isFileValid P this fileName nested_ then
      match loadFromPath P this host
              (getMainFilePath join this fileName (Some dir) nested_)
              None true (loader s) with
      | (Ok file, st) =>
          loadEach P join this host dir nested_ rest (instances ++ [file])
            (set_loader st s)
      | (Throw err, st) =>
          if errorListener s then
            loadEach P join this host dir nested_ rest instances
              (logS (EmitBatch (EvError err)) (set_loader st s))
          else (Throw err, set_loader st s)
      end
    else loadEach P join this host dir nested_ rest instances s.
Proof.
  simpl. destruct (isFileValid P this fileName nested_); [|reflexivity].
  simpl. unfold_MS.
  destruct (loadFromPath P this host _ None true (loader s)) as [[file|err] st];
    [reflexivity|].
  simpl. destruct (errorListener s); reflexivity.
Qed.

(** A load never removes or replaces a stored unit. *)
Lemma loadFromPath_keeps_units filePath name emit_ st f u :
  fileMap st !! f = Some u ->
  fileMap (snd (loadFromPath P this host filePath name emit_ st)) !! f
  = Some u.
Proof.
  intros H. rewrite loadFromPath_run.
  destruct (fileMap st !! filePath) eqn:Hin; [exact H|]. cbv zeta.
  destruct (import_ host filePath) as [e|mdl]; [exact H|].
  assert (f <> filePath) by congruence.
  rewrite initFile_run. cbv zeta. unfold watched.
  destruct (if instantiate (classes this) then _ else _) as [c|];
    [destruct (construct host c _)|];
    destruct emit_, (watch this); simpl; rewrite ?lookup_insert_ne by congruence;
    exact H.
Qed.

(** The paths a load imports: its own, if it was not loaded. *)
Lemma loadFromPath_imports filePath name emit_ st :
  imports (trace (snd (loadFromPath P this host filePath name emit_ st)))
  = imports (trace st)
    ++ match fileMap st !! filePath with
       | Some _ => []
       | None => [filePath]
       end.
Proof.
  rewrite loadFromPath_run.
  destruct (fileMap st !! filePath) eqn:Hin; [now rewrite app_nil_r|].
  cbv zeta.
  destruct (import_ host filePath) as [e|mdl]; simpl.
  { now rewrite imports_app. }
  rewrite initFile_run. cbv zeta. unfold watched.
  destruct (if instantiate (classes this) then _ else _) as [c|];
    [destruct (construct host c _)|];
    destruct emit_, (watch this); simpl; rewrite !imports_app; simpl;
    rewrite ?app_nil_r; reflexivity.
Qed.

(** What the loop leaves alone, however it ends: the flag, the
    listeners, the stored units; it logs [error] events only, and none
    without a listener. *)
Lemma loadEach_frame dir nested_ files instances s :
  let s' := snd (loadEach P join this host dir nested_ files instances s) in
  _ready s' = _ready s
  /\ errorListener s' = errorListener s
  /\ onceReady s' = onceReady s
  /\ (exists l errs,
        batchLog s' = batchLog s ++ l
        /\ batch_events l = map EvError errs
        /\ (forall cb, calls_of cb l = O)
        /\ (errorListener s = false -> l = []))
  /\ (forall f u, fileMap (loader s) !! f = Some u ->
                  fileMap (loader s') !! f = Some u).
Proof.
  revert instances s.
  induction files as [|fileName rest IH]; intros instances s.
  - simpl. repeat split; auto. exists [], []. rewrite app_nil_r. auto.
  - cbv zeta. rewrite loadEach_cons.
    destruct (isFileValid P this fileName nested_); [|apply IH].
    pose proof (loadFromPath_keeps_units
                  (getMainFilePath join this fileName (Some dir) nested_)
                  None true (loader s)) as Hkeep.
    destruct (loadFromPath P this host _ None true (loader s))
      as [[file|err] st]; simpl in Hkeep.
    + specialize (IH (instances ++ [file]) (set_loader st s)).
      cbv zeta in IH. destruct IH as (H1 & H2 & H3 & H4 & H5).
      repeat split; auto.
    + destruct (errorListener s) eqn:Hl.
      * specialize (IH instances
                      (logS (EmitBatch (EvError err)) (set_loader st s))).
        cbv zeta in IH.
        destruct IH as (H1 & H2 & H3 & (l & errs & Hl1 & Hl2 & Hl3 & _) & H5).
        repeat split; auto.
        -- simpl in H2. congruence.
        -- exists ((List.length (trace st), EmitBatch (EvError err)) :: l),
                  (err :: errs).
           simpl in Hl1. rewrite Hl1, <- app_assoc. simpl.
           repeat split; auto; [now rewrite Hl2|discriminate].
      * simpl. repeat split; auto.
        exists [], []. rewrite app_nil_r. auto.
Qed.

(** With an ['error'] listener the loop always comes to its end. *)
Lemma loadEach_returns dir nested_ files instances s :
  errorListener s = true ->
  exists instances' s',
    loadEach P join this host dir nested_ files instances s
    = (Ok instances', s').
Proof.
  revert instances s.
  induction files as [|fileName rest IH]; intros instances s Hl.
  - simpl. eauto.
  - rewrite loadEach_cons.
    destruct (isFileValid P this fileName nested_); [|now apply IH].
    destruct (loadFromPath P this host _ None true (loader s))
      as [[file|err] st].
    + now apply IH.
    + rewrite Hl. now apply IH.
Qed.

(** What the loop returns: for each valid entry, in order, the unit
    loaded for it, or nothing when its load failed and an [error] was
    emitted instead. *)
Lemma loadEach_result dir nested_ files instances s instances' s' :
  loadEach P join this host dir nested_ files instances s
  = (Ok instances', s') ->
  exists (oks : list (string * LoadedUnit)) (errs : list LoaderError),
    instances' = instances ++ map snd oks
    /\ batch_events (batchLog s')
       = batch_events (batchLog s) ++ map EvError errs
    /\ (List.length oks + List.length errs
        = List.length (valid_entries P this nested_ files))%nat
    /\ Forall (fun fu =>
                 In (fst fu) (valid_entries P this nested_ files)
                 /\ fileMap (loader s')
                    !! getMainFilePath join this (fst fu) (Some dir) nested_
                    = Some (snd fu)) oks
    /\ (errs = [] -> map fst oks = valid_entries P this nested_ files).
Proof.
  revert instances s instances' s'.
  induction files as [|fileName rest IH]; intros instances s instances' s'.
  - simpl. intros [= <- <-]. exists [], []. simpl.
    rewrite !app_nil_r. repeat split; auto.
  - rewrite loadEach_cons. unfold valid_entries in *. simpl.
    destruct (isFileValid P this fileName nested_) eqn:Hvalid; [|apply IH].
    destruct (loadFromPath P this host _ None true (loader s))
      as [[file|err] st] eqn:Hload.
    + intros Hrest.
      pose proof (loadEach_frame dir nested_ rest (instances ++ [file])
                    (set_loader st s)) as Hframe.
      cbv zeta in Hframe. rewrite Hrest in Hframe.
      destruct Hframe as (_ & _ & _ & _ & Hkeep).
      apply loadFromPath_stores in Hload.
      destruct (IH _ _ _ _ Hrest)
        as (oks & errs & -> & Hev & Hlen & Hall & Hnoerr).
      exists ((fileName, file) :: oks), errs.
      split; [simpl; now rewrite <- app_assoc|].
      split; [exact Hev|].
      split; [simpl; lia|].
      split.
      * constructor.
        -- simpl. split; [now left|]. now apply Hkeep.
        -- eapply Forall_impl; [exact Hall|].
           intros [f u] [Hin Hf]. simpl in *. split; [now right|exact Hf].
      * intros He. simpl. now rewrite (Hnoerr He).
    + destruct (errorListener s); [|discriminate].
      intros Hrest.
      destruct (IH _ _ _ _ Hrest)
        as (oks & errs & -> & Hev & Hlen & Hall & Hnoerr).
      exists oks, (err :: errs).
      split; [reflexivity|].
      split.
      { rewrite Hev. simpl. rewrite batch_events_app. simpl.
        now rewrite <- app_assoc. }
      split; [simpl; lia|].
      split; [|discriminate].
      eapply Forall_impl; [exact Hall|].
      intros [f u] [Hin Hf]. simpl in *. split; [now right|exact Hf].
Qed.

(** The loop imports main files of valid entries only. *)
Lemma loadEach_imports dir nested_ files instances s :
  exists l,
    imports (trace (loader
                      (snd (loadEach P join this host dir nested_ files
                              instances s))))
    = imports (trace (loader s)) ++ l
    /\ forall filePath, In filePath l ->
         exists fileName,
           In fileName (valid_entries P this nested_ files)
           /\ filePath
              = getMainFilePath join this fileName (Some dir) nested_.
Proof.
  revert instances s.
  induction files as [|fileName rest IH]; intros instances s.
  - exists []. simpl. rewrite app_nil_r. split; [reflexivity|]. intros ? [].
  - rewrite loadEach_cons. unfold valid_entries. simpl.
    destruct (isFileValid P this fileName nested_) eqn:Hvalid; [|apply IH].
    pose proof (loadFromPath_imports
                  (getMainFilePath join this fileName (Some dir) nested_)
                  None true (loader s)) as Himp.
    set (new := match fileMap (loader s) !! _ with
                | Some _ => []
                | None => _
                end) in Himp.
    assert (Hnew : forall p, In p new ->
              p = getMainFilePath join this fileName (Some dir) nested_).
    { subst new. destruct (fileMap (loader s) !! _); intros p [].
      - now subst. - contradiction. }
    assert (Hgen : forall inst s1,
              imports (trace (loader s1))
              = imports (trace (loader s)) ++ new ->
              exists l,
                imports (trace (loader
                  (snd (loadEach P join this host dir nested_ rest inst s1))))
                = imports (trace (loader s)) ++ l
                /\ forall filePath, In filePath l ->
                     exists f,
                       In f (fileName :: List.filter
                               (fun f => isFileValid P this f nested_) rest)
                       /\ filePath
                          = getMainFilePath join this f (Some dir) nested_).
    { intros inst s1 Hs1. destruct (IH inst s1) as (l & Hl & Hin).
      exists (new ++ l). rewrite Hl, Hs1, <- app_assoc. split; [reflexivity|].
      intros p [Hp|Hp]%in_app_iff.
      - exists fileName. split; [now left|now apply Hnew].
      - destruct (Hin p Hp) as (f & Hf & ->). exists f. split; [now right|auto]. }
    destruct (loadFromPath P this host _ None true (loader s))
      as [[file|err] st]; simpl in Himp.
    + apply Hgen. exact Himp.
    + destruct (errorListener s).
      * apply Hgen. exact Himp.
      * simpl. exists new. split; [exact Himp|].
        intros p Hp. exists fileName. split; [now left|now apply Hnew].
Qed.

(** When every valid entry is loaded already, the loop reads the stored
    units and changes nothing. *)
Lemma loadEach_all_loaded dir nested_ files instances s :
  (forall fileName, In fileName (valid_entries P this nested_ files) ->
     is_Some (fileMap (loader s)
              !! getMainFilePath join this fileName (Some dir) nested_)) ->
  exists units,
    loadEach P join this host dir nested_ files instances s
    = (Ok (instances ++ units), s)
    /\ Forall2 (fun fileName u =>
                  fileMap (loader s)
                  !! getMainFilePath join this fileName (Some dir) nested_
                  = Some u)
               (valid_entries P this nested_ files) units.
Proof.
  revert instances.
  induction files as [|fileName rest IH]; intros instances Hall.
  - exists []. simpl. rewrite app_nil_r. split; [reflexivity|constructor].
  - rewrite loadEach_cons. unfold valid_entries in *. simpl in *.
    destruct (isFileValid P this fileName nested_) eqn:Hvalid; [|now apply IH].
    destruct (Hall fileName) as [u Hu]; [now left|].
    rewrite (loadFromPath_loaded _ _ _ _ None true _ _ Hu).
    assert (Hs : set_loader (loader s) s = s) by now destruct s.
    rewrite Hs.
    destruct (IH (instances ++ [u])) as (units & Heq & Hf2).
    { intros f Hf. apply Hall. now right. }
    exists (u :: units). rewrite Heq, <- app_assoc. simpl.
    split; [reflexivity|]. now constructor.
Qed.

Lemma call_waiting_run l s0 :
  let s' := fold_left (fun s' cb => logS (ReadyCallback cb) s') l s0 in
  loader s' = loader s0
  /\ _ready s' = _ready s0
  /\ errorListener s' = errorListener s0
  /\ onceReady s' = onceReady s0
  /\ batch_events (batchLog s') = batch_events (batchLog s0)
  /\ forall cb, calls_of cb (batchLog s')
                = (calls_of cb (batchLog s0) + occurrences cb l)%nat.
Proof.
  revert s0. induction l as [|c l IH]; intros s0; simpl.
  - repeat split; auto.
  - destruct (IH (logS (ReadyCallback c) s0)) as (G1 & G2 & G3 & G4 & G5 & G6).
    simpl in *. repeat split; auto.
    + rewrite G5, batch_events_app. simpl. apply app_nil_r.
    + intros cb. rewrite G6, calls_of_app. simpl.
      destruct (Nat.eqb cb c); lia.
Qed.

(** The state [emit('ready')] leaves: every waiting callback called. *)
Lemma emit_ready_run s :
  let s' := snd (emit_ready s) in
  loader s' = loader s
  /\ _ready s' = _ready s
  /\ errorListener s' = errorListener s
  /\ onceReady s' = []
  /\ batch_events (batchLog s') = batch_events (batchLog s) ++ [EvReady]
  /\ forall cb, calls_of cb (batchLog s')
                = (calls_of cb (batchLog s) + occurrences cb (onceReady s))%nat.
Proof.
  unfold emit_ready. simpl.
  destruct (call_waiting_run (onceReady s)
              (set_onceReady [] (logS (EmitBatch EvReady) s)))
    as (G1 & G2 & G3 & G4 & G5 & G6).
  simpl in *. repeat split; auto.
  - rewrite G5, batch_events_app. reflexivity.
  - intros cb. rewrite G6, calls_of_app. simpl. lia.
Qed.

Lemma loadFiles_run dir nested_ s :
  loadFiles P join readdir this host dir nested_ s
  = let d := batch_dir this dir in
    let n := batch_nested this dir nested_ in
    match readdir d with
    | inl e => (Throw (LoadFilesError (Thrown e) d), logS (Readdir d) s)
    | inr files =>
        match loadEach P join this host d n files [] (logS (Readdir d) s) with
        | (Ok instances, s1) =>
            let s2 := logS (EmitBatch (EvLoadMany instances)) s1 in
            (Ok instances,
             if _ready s2 then s2 else snd (emit_ready (set_ready s2)))
        | (Throw e, s1) => (Throw e, s1)
        end
    end.
Proof.
  unfold loadFiles. unfold_MS. cbv zeta.
  destruct (readdir (batch_dir this dir)) as [e|files]; [reflexivity|].
  destruct (loadEach P join this host _ _ files [] _) as [[instances|e] s1];
    [|reflexivity].
  simpl. destruct (_ready s1); reflexivity.
Qed.

(** X14. When the directory cannot be listed, [loadFiles] fails with
    [LoadFilesError] carrying the cause and the directory; no entry is
    loaded, no event is emitted and the loader does not become ready. *)
Theorem loadFiles_readdir_failure dir nested_ s cause :
  readdir (batch_dir this dir) = inl cause ->
  exists s',
    loadFiles P join readdir this host dir nested_ s
    = (Throw (LoadFilesError (Thrown cause) (batch_dir this dir)), s')
    /\ loader s' = loader s
    /\ _ready s' = _ready s
    /\ onceReady s' = onceReady s
    /\ batch_events (batchLog s') = batch_events (batchLog s).
Proof.
  intros H. rewrite loadFiles_run. cbv zeta. rewrite H.
  eexists. split; [reflexivity|]. simpl.
  rewrite batch_events_app. simpl. rewrite app_nil_r. auto.
Qed.

(** X15. With an ['error'] listener attached, [loadFiles] never fails on
    an entry: once the directory is listed it returns, having emitted one
    [error] per entry that failed, then [load-many] with the units it
    returns, then [ready] if the loader was not ready; the loader is
    ready afterwards, and the units returned and the errors emitted add
    up to the valid entries. *)
Theorem loadFiles_partial_failure dir nested_ s files :
  errorListener s = true ->
  readdir (batch_dir this dir) = inr files ->
  exists instances errs s',
    loadFiles P join readdir this host dir nested_ s = (Ok instances, s')
    /\ _ready s' = true
    /\ batch_events (batchLog s')
       = batch_events (batchLog s) ++ map EvError errs
         ++ [EvLoadMany instances] ++ (if _ready s then [] else [EvReady])
    /\ (List.length instances + List.length errs
        = List.length
            (valid_entries P this (batch_nested this dir nested_) files))%nat.
Proof.
  intros Hl Hdir. rewrite loadFiles_run. cbv zeta. rewrite Hdir.
  set (d := batch_dir this dir). set (n := batch_nested this dir nested_).
  destruct (loadEach_returns d n files [] (logS (Readdir d) s) Hl)
    as (instances & s1 & Hloop).
  rewrite Hloop.
  pose proof (loadEach_frame d n files [] (logS (Readdir d) s)) as Hframe.
  cbv zeta in Hframe. rewrite Hloop in Hframe. simpl in Hframe.
  destruct Hframe as (Hr & _ & _ & _ & _).
  destruct (loadEach_result _ _ _ _ _ _ _ Hloop)
    as (oks & errs & Hinst & Hev & Hlen & _ & _).
  simpl in Hinst. subst instances.
  exists (map snd oks), errs. eexists. split; [reflexivity|].
  assert (Hev2 : batch_events
                   (batchLog (logS (EmitBatch (EvLoadMany (map snd oks))) s1))
                 = batch_events (batchLog s) ++ map EvError errs
                   ++ [EvLoadMany (map snd oks)]).
  { simpl. rewrite batch_events_app, Hev. simpl.
    rewrite batch_events_app. simpl. now rewrite app_nil_r, <- app_assoc. }
  simpl _ready. rewrite Hr.
  destruct (_ready s) eqn:Hready.
  - split; [exact Hr|]. split; [|rewrite length_map; exact Hlen].
    rewrite Hev2. now rewrite app_nil_r.
  - destruct (emit_ready_run
                (set_ready (logS (EmitBatch (EvLoadMany (map snd oks))) s1)))
      as (_ & G2 & _ & _ & G5 & _).
    cbn [set_ready batchLog] in G5. rewrite Hev2 in G5.
    split; [exact G2|]. split; [|rewrite length_map; exact Hlen].
    rewrite G5. now rewrite <- !app_assoc.
Qed.

(** X16. With no ['error'] listener the failure of an entry is not
    survived: when [loadFiles] fails after the directory was listed it
    has emitted none of [error], [load-many] and [ready] (the [load]
    events of the entries loaded before the failure are not among
    these: they were emitted) and the loader has not become ready; when
    it returns, every valid entry loaded. *)
Theorem loadFiles_without_error_listener dir nested_ s files r s' :
  errorListener s = false ->
  readdir (batch_dir this dir) = inr files ->
  loadFiles P join readdir this host dir nested_ s = (r, s') ->
  match r with
  | Throw _ =>
      _ready s' = _ready s
      /\ batch_events (batchLog s') = batch_events (batchLog s)
  | Ok instances =>
      List.length instances
      = List.length
          (valid_entries P this (batch_nested this dir nested_) files)
      /\ _ready s' = true
  end.
Proof.
  intros Hl Hdir. rewrite loadFiles_run. cbv zeta. rewrite Hdir.
  set (d := batch_dir this dir). set (n := batch_nested this dir nested_).
  pose proof (loadEach_frame d n files [] (logS (Readdir d) s)) as Hframe.
  cbv zeta in Hframe.
  destruct (loadEach P join this host d n files [] (logS (Readdir d) s))
    as [[instances|e] s1] eqn:Hloop; simpl in Hframe;
    destruct Hframe as (Hr & _ & _ & (l & errs0 & Hlog & _ & _ & Hnil) & _).
  - intros [= <- <-].
    destruct (loadEach_result _ _ _ _ _ _ _ Hloop)
      as (oks & errs & Hinst & Hev & Hlen & _ & _).
    simpl in Hinst. subst instances.
    rewrite (Hnil Hl), app_nil_r in Hlog.
    rewrite Hlog in Hev.
    assert (errs = []) as ->.
    { destruct errs; [reflexivity|]. simpl in Hev.
      apply (f_equal (@List.length _)) in Hev.
      rewrite length_app in Hev. simpl in Hev. lia. }
    simpl in Hlen. rewrite length_map. split; [lia|].
    cbn [logS _ready]. destruct (_ready s1) eqn:E; [exact E|].
    destruct (emit_ready_run
                (set_ready (logS (EmitBatch (EvLoadMany (map snd oks))) s1)))
      as (_ & G2 & _).
    exact G2.
  - intros [= <- <-]. split; [exact Hr|].
    rewrite Hlog, (Hnil Hl), app_nil_r. simpl.
    rewrite batch_events_app. simpl. now rewrite app_nil_r.
Qed.

Lemma isFileValid_not_ignored fileName nested_ :
  isFileValid P this fileName nested_ = true -> ~ In fileName (ignored this).
Proof.
  unfold isFileValid. cbv zeta.
  destruct (_ || _)%bool; [discriminate|].
  destruct (bool_decide (fileName ∈ ignored this)) eqn:E; [discriminate|].
  intros _ Hin. apply bool_decide_eq_false in E. apply E.
  now apply list_elem_of_In.
Qed.

Lemma valid_entries_In nested_ files fileName :
  In fileName (valid_entries P this nested_ files) ->
  In fileName files /\ isFileValid P this fileName nested_ = true.
Proof. unfold valid_entries. apply filter_In. Qed.

(** The final steps of [loadFiles] do not touch the loader. *)
Lemma loadFiles_loader dir nested_ s :
  loader (snd (loadFiles P join readdir this host dir nested_ s))
  = match readdir (batch_dir this dir) with
    | inl _ => loader s
    | inr files =>
        loader (snd (loadEach P join this host (batch_dir this dir)
                       (batch_nested this dir nested_) files []
                       (logS (Readdir (batch_dir this dir)) s)))
    end.
Proof.
  rewrite loadFiles_run. cbv zeta.
  destruct (readdir (batch_dir this dir)) as [e|files]; [reflexivity|].
  destruct (loadEach P join this host _ _ files [] _) as [[instances|e] s1];
    [|reflexivity].
  simpl. destruct (_ready s1); [reflexivity|].
  now destruct (emit_ready_run
                  (set_ready (logS (EmitBatch (EvLoadMany instances)) s1)))
    as (G1 & _).
Qed.

(** X17. Every unit [loadFiles] returns is, when it returns, the unit
    stored at the main file of a valid entry of the directory, an entry
    that is not in the ignore list. *)
Theorem loadFiles_instances_are_stored dir nested_ s files instances s' :
  readdir (batch_dir this dir) = inr files ->
  loadFiles P join readdir this host dir nested_ s = (Ok instances, s') ->
  Forall (fun u =>
            exists fileName,
              In fileName files
              /\ ~ In fileName (ignored this)
              /\ isFileValid P this fileName (batch_nested this dir nested_)
                 = true
              /\ fileMap (loader s')
                 !! getMainFilePath join this fileName
                      (Some (batch_dir this dir))
                      (batch_nested this dir nested_)
                 = Some u) instances.
Proof.
  intros Hdir Hload.
  pose proof (loadFiles_loader dir nested_ s) as Hloader.
  rewrite Hload, Hdir in Hloader. simpl in Hloader.
  revert Hload. rewrite loadFiles_run. cbv zeta. rewrite Hdir.
  destruct (loadEach P join this host _ _ files [] _)
    as [[instances0|e] s1] eqn:Hloop; [|discriminate].
  intros [= <- _]. simpl in Hloader.
  destruct (loadEach_result _ _ _ _ _ _ _ Hloop)
    as (oks & errs & Hinst & _ & _ & Hall & _).
  simpl in Hinst. subst instances0.
  apply Forall_map. eapply Forall_impl; [exact Hall|].
  intros [f u] [Hin Hf]. simpl in *.
  apply valid_entries_In in Hin as [Hin Hvalid].
  exists f. repeat split; auto.
  - now apply isFileValid_not_ignored in Hvalid.
  - now rewrite Hloader.
Qed.

(** X18. [loadFiles] imports nothing but main files of valid entries of
    the directory: an entry that is ignored, or whose extension is not
    allowed, is not resolved on its account. *)
Theorem loadFiles_imports_only_valid_entries dir nested_ s files :
  readdir (batch_dir this dir) = inr files ->
  exists l,
    imports (trace (loader
               (snd (loadFiles P join readdir this host dir nested_ s))))
    = imports (trace (loader s)) ++ l
    /\ forall filePath, In filePath l ->
         exists fileName,
           In fileName files
           /\ ~ In fileName (ignored this)
           /\ isFileValid P this fileName (batch_nested this dir nested_)
              = true
           /\ filePath
              = getMainFilePath join this fileName
                  (Some (batch_dir this dir))
                  (batch_nested this dir nested_).
Proof.
  intros Hdir. rewrite loadFiles_loader, Hdir.
  destruct (loadEach_imports (batch_dir this dir)
              (batch_nested this dir nested_) files []
              (logS (Readdir (batch_dir this dir)) s)) as (l & Hl & Hin).
  exists l. split; [exact Hl|].
  intros p Hp. destruct (Hin p Hp) as (f & Hf & ->).
  apply valid_entries_In in Hf as [Hf Hvalid].
  exists f. repeat split; auto.
  now apply isFileValid_not_ignored in Hvalid.
Qed.

Lemma stored_units_unique (m : gmap string LoadedUnit)
  (key : string -> string) (oks : list (string * LoadedUnit)) units :
  Forall (fun fu => m !! key (fst fu) = Some (snd fu)) oks ->
  Forall2 (fun f u => m !! key f = Some u) (map fst oks) units ->
  units = map snd oks.
Proof.
  revert units. induction oks as [|[f u] oks IH]; intros units Hall H2.
  - now inversion H2.
  - inversion Hall as [|? ? Hfu Hall']; subst.
    inversion H2 as [|? u' ? units' Hu' H2']; subst. simpl in *.
    f_equal; [congruence|now apply IH].
Qed.

(** X19. Calling [loadFiles] again: after a call in which every valid
    entry loaded, a second call on the same directory returns the same
    units and leaves the loader as it is (no module is resolved, no
    constructor is called, no row is written); it emits [load-many], and
    not [ready] a second time. *)
Theorem loadFiles_again dir nested_ s files instances s1 :
  readdir (batch_dir this dir) = inr files ->
  loadFiles P join readdir this host dir nested_ s = (Ok instances, s1) ->
  List.length instances
  = List.length (valid_entries P this (batch_nested this dir nested_) files) ->
  exists s2,
    loadFiles P join readdir this host dir nested_ s1 = (Ok instances, s2)
    /\ loader s2 = loader s1
    /\ _ready s2 = true
    /\ batch_events (batchLog s2)
       = batch_events (batchLog s1) ++ [EvLoadMany instances].
Proof.
  intros Hdir Hload Hall.
  pose proof (loadFiles_loader dir nested_ s) as Hloader.
  rewrite Hload, Hdir in Hloader. simpl in Hloader.
  set (d := batch_dir this dir) in *.
  set (n := batch_nested this dir nested_) in *.
  assert (Hready : _ready s1 = true
                   /\ exists s0,
                        loadEach P join this host d n files []
                          (logS (Readdir d) s) = (Ok instances, s0)).
  { revert Hload. rewrite loadFiles_run. cbv zeta. fold d n. rewrite Hdir.
    destruct (loadEach P join this host d n files [] _)
      as [[instances0|e] s0]; [|discriminate].
    intros [= <- <-]. split; [|eauto].
    cbn [logS _ready]. destruct (_ready s0) eqn:E; [exact E|].
    now destruct (emit_ready_run
                    (set_ready (logS (EmitBatch (EvLoadMany instances0)) s0)))
      as (_ & G2 & _). }
  destruct Hready as (Hready & s0 & Hloop). rewrite Hloop in Hloader.
  simpl in Hloader.
  destruct (loadEach_result _ _ _ _ _ _ _ Hloop)
    as (oks & errs & Hinst & _ & Hlen & Hstored & Hnoerr).
  simpl in Hinst. subst instances. rewrite length_map in Hall.
  assert (errs = []) as -> by (destruct errs; [reflexivity|simpl in Hlen; lia]).
  specialize (Hnoerr eq_refl).
  assert (Hstored1 : Forall (fun fu =>
            fileMap (loader (logS (Readdir d) s1))
            !! getMainFilePath join this (fst fu) (Some d) n
            = Some (snd fu)) oks).
  { eapply Forall_impl; [exact Hstored|].
    intros [f u] [_ Hf]. simpl in *. now rewrite Hloader. }
  destruct (loadEach_all_loaded d n files [] (logS (Readdir d) s1))
    as (units & Hagain & Hunits).
  { fold n. rewrite <- Hnoerr. intros f Hf.
    apply in_map_iff in Hf as ([f' u] & <- & Hin).
    rewrite Forall_forall in Hstored1.
    specialize (Hstored1 _ (proj2 (list_elem_of_In _ _) Hin)). simpl in *.
    eauto. }
  fold n in Hunits. rewrite <- Hnoerr in Hunits.
  rewrite (stored_units_unique _
             (fun f => getMainFilePath join this f (Some d) n)
             oks units Hstored1 Hunits) in Hagain.
  simpl in Hagain.
  rewrite loadFiles_run. cbv zeta. fold d n. rewrite Hdir, Hagain.
  cbn [logS _ready]. rewrite Hready.
  eexists. split; [reflexivity|]. simpl.
  rewrite !batch_events_app. simpl. rewrite app_nil_r. auto.
Qed.

End Batch.

(** *** Readiness over the life of a loader *)

Lemma ready_count_errors errs : ready_count (map EvError errs) = O.
Proof. induction errs; simpl; auto. Qed.

Lemma stepS_ready_invariant P join this step s registered :
  ready_invariant s registered ->
  ready_invariant (stepS P join this step s)
    (fun cb => (registered cb + registrations cb [step])%nat).
Proof.
  intros (Hcount & Hwait & Hcalls).
  destruct step as [[readdir host] [dir nested_|cb0|op|attached]]; simpl.
  - (* loadFiles *)
    rewrite loadFiles_run. cbv zeta.
    destruct (readdir (batch_dir this dir)) as [e|files]; cbn [snd].
    { repeat split; simpl; auto.
      - rewrite batch_events_app. simpl. now rewrite app_nil_r.
      - intros cb. rewrite calls_of_app. simpl. rewrite <- Hcalls. lia. }
    pose proof (loadEach_frame P join this host (batch_dir this dir)
                  (batch_nested this dir nested_) files []
                  (logS (Readdir (batch_dir this dir)) s)) as Hframe.
    cbv zeta in Hframe.
    destruct (loadEach P join this host _ _ files [] _) as [r s1].
    simpl in Hframe.
    destruct Hframe as (Hr & _ & Ho & (l & errs & Hlog & Hev & Hno & _) & _).
    assert (Hcount1 : ready_count (batch_events (batchLog s1))
                      = (if _ready s1 then 1 else 0)%nat).
    { rewrite Hlog, Hr, !batch_events_app, Hev, !ready_count_app,
        ready_count_errors. simpl. lia. }
    assert (Hcalls1 : forall cb,
              (calls_of cb (batchLog s1) + occurrences cb (onceReady s1))%nat
              = registered cb).
    { intros cb. rewrite Hlog, Ho, !calls_of_app, Hno. simpl.
      rewrite <- Hcalls. lia. }
    assert (Hwait1 : _ready s1 = true -> onceReady s1 = []).
    { rewrite Hr, Ho. exact Hwait. }
    destruct r as [instances|e]; cbn [snd].
    + cbn [logS _ready].
      destruct (_ready s1) eqn:E.
      * repeat split; simpl; auto.
        -- rewrite E, batch_events_app, ready_count_app. simpl. lia.
        -- intros cb. rewrite calls_of_app. simpl.
           specialize (Hcalls1 cb). lia.
      * destruct (emit_ready_run
                    (set_ready (logS (EmitBatch (EvLoadMany instances)) s1)))
          as (_ & G2 & _ & G4 & G5 & G6).
        cbn [set_ready logS _ready onceReady batchLog] in G2, G5, G6.
        unfold ready_invariant. rewrite G2, G4, G5.
        split; [|split; [reflexivity|]].
        -- rewrite !ready_count_app, batch_events_app, ready_count_app.
           simpl. lia.
        -- intros cb. rewrite G6, calls_of_app. simpl.
           specialize (Hcalls1 cb). lia.
    + repeat split; auto. intros cb. rewrite Hcalls1. lia.
  - (* onReady *)
    unfold onReady, ready_invariant in *.
    destruct (_ready s) eqn:E; simpl.
    + rewrite E. repeat split; auto.
      * rewrite batch_events_app, ready_count_app. simpl. lia.
      * intros cb. rewrite calls_of_app. simpl.
        specialize (Hcalls cb). destruct (Nat.eqb cb cb0); lia.
    + rewrite E. repeat split; auto; [discriminate|].
      intros cb. rewrite occurrences_app. simpl.
      specialize (Hcalls cb). destruct (Nat.eqb cb cb0); lia.
  - repeat split; auto. intros cb. rewrite Hcalls. lia.
  - repeat split; auto. intros cb. rewrite Hcalls. lia.
Qed.

Lemma registrations_app cb l1 l2 :
  registrations cb (l1 ++ l2)
  = (registrations cb l1 + registrations cb l2)%nat.
Proof.
  induction l1 as [|[[r h] op] l IH]; simpl; [reflexivity|].
  destruct op; simpl; auto. destruct (Nat.eqb cb cb0); simpl; now rewrite IH.
Qed.

Lemma ready_invariant_ext s f g :
  (forall cb, f cb = g cb) -> ready_invariant s f -> ready_invariant s g.
Proof.
  intros Hfg (H1 & H2 & H3). repeat split; auto.
  intros cb. now rewrite <- Hfg.
Qed.

Lemma runS_ready_invariant P join this steps s registered :
  ready_invariant s registered ->
  ready_invariant (runS P join this steps s)
    (fun cb => (registered cb + registrations cb steps)%nat).
Proof.
  revert s registered.
  induction steps as [|step steps IH]; intros s registered Hinv.
  - simpl. eapply ready_invariant_ext; [|exact Hinv]. intros cb. simpl. lia.
  - change (runS P join this (step :: steps) s)
      with (runS P join this steps (stepS P join this step s)).
    eapply ready_invariant_ext;
      [|apply IH, stepS_ready_invariant, Hinv].
    intros cb. cbv beta.
    pose proof (registrations_app cb [step] steps) as Happ.
    cbn [app] in Happ. lia.
Qed.

(** X20. Over any sequence of [loadFiles], [onReady], single-path
    operations and changes of the ['error'] listener on a new loader:
    ['ready'] is emitted exactly once if the loader has become ready and
    never otherwise; no callback waits once the loader is ready; and each
    callback passed to [onReady] has been called exactly once per
    registration, or is still waiting. *)
Theorem ready_once_callbacks_once P join this steps :
  let s := runS P join this steps new_session in
  ready_count (batch_events (batchLog s)) = (if _ready s then 1 else 0)%nat
  /\ (_ready s = true -> onceReady s = [])
  /\ forall cb,
       (calls_of cb (batchLog s) + occurrences cb (onceReady s))%nat
       = registrations cb steps.
Proof.
  assert (H0 : ready_invariant new_session (fun _ => O)).
  { repeat split; simpl; auto. }
  apply (runS_ready_invariant P join this steps) in H0.
  exact H0.
Qed.

(* ===================================================================== *)
(** ** Eligible entries, dependencies and error stacks                   *)
(* ===================================================================== *)

(** X21. The extension of an entry is put in lower case before it is
    looked up in [allowedFileExts], and the list is used as configured:
    in flat mode a list whose extensions all contain an upper-case letter
    admits no entry at all. *)
Theorem isFileValid_upper_case_extensions P this file nested_ :
  default (nested this) nested_ = false ->
  (forall ext, In ext (allowedFileExts this) -> processName ext <> ext) ->
  isFileValid P this file nested_ = false.
Proof.
  intros Hflat Hupper. unfold isFileValid. cbv zeta. rewrite Hflat.
  destruct (bool_decide
              (JS.toLowerCase (extname P file) ∈ allowedFileExts this)) eqn:E;
    [|reflexivity].
  apply bool_decide_eq_true in E. apply list_elem_of_In in E.
  destruct (Hupper _ E). apply processName_idempotent.
Qed.

(** Induction on a tree of modules. *)
Lemma NodeModule_ind (Q : NodeModule -> Prop) :
  (forall id children, Forall Q children -> Q (Build_NodeModule id children)) ->
  forall mdl, Q mdl.
Proof.
  intros H. fix IH 1. intros [id children]. apply H.
  induction children as [|c r IHr]; constructor; [apply IH|exact IHr].
Qed.

Lemma findDependencies_children this children deps :
  Forall (fun mdl => forall deps,
            findDependencies this mdl deps
            = deps ++ findDependencies this mdl []) children ->
  fold_left (fun deps child => findDependencies this child deps) children deps
  = deps ++ flat_map (fun child => findDependencies this child []) children.
Proof.
  intros Hall. revert deps.
  induction Hall as [|c r Hc _ IH]; intros deps; simpl.
  - now rewrite app_nil_r.
  - rewrite IH, Hc, <- app_assoc. reflexivity.
Qed.

Lemma findDependencies_accumulates this mdl :
  forall deps,
    findDependencies this mdl deps = deps ++ findDependencies this mdl [].
Proof.
  induction mdl as [id children IH] using NodeModule_ind. intros deps. simpl.
  destruct (shouldFindDependencies this id); [|now rewrite app_nil_r].
  rewrite !(findDependencies_children this children _ IH).
  now rewrite <- app_assoc.
Qed.

(** [findDependencies] as a recursive listing. *)
Lemma findDependencies_unfold this id children :
  findDependencies this (Build_NodeModule id children) []
  = if shouldFindDependencies this id
    then id :: flat_map (fun child => findDependencies this child []) children
    else [].
Proof.
  simpl. destruct (shouldFindDependencies this id); [|reflexivity].
  rewrite findDependencies_children; [reflexivity|].
  apply Forall_forall. intros c _. apply findDependencies_accumulates.
Qed.

(** X22. [findDependencies] only adds to the list it is given, and what
    it adds does not depend on that list; every identifier it adds is a
    module of the tree that lies under the root path of the loader. *)
Theorem findDependencies_sound this mdl deps :
  findDependencies this mdl deps = deps ++ findDependencies this mdl []
  /\ Forall (fun id => JS.startsWith id (path this) = true
                       /\ In id (module_ids mdl))
            (findDependencies this mdl []).
Proof.
  split; [apply findDependencies_accumulates|].
  induction mdl as [id children IH] using NodeModule_ind.
  rewrite findDependencies_unfold.
  destruct (shouldFindDependencies this id) eqn:E; [|constructor].
  constructor; [split; [exact E|now left]|].
  apply Forall_forall. intros x Hx. apply list_elem_of_In in Hx.
  apply in_flat_map in Hx as (c & Hc & Hx).
  rewrite Forall_forall in IH.
  specialize (IH c (proj2 (list_elem_of_In _ _) Hc)).
  rewrite Forall_forall in IH.
  destruct (IH x (proj2 (list_elem_of_In _ _) Hx)) as [Hs Hin].
  split; [exact Hs|]. simpl. right. apply in_flat_map. eauto.
Qed.

(** X23. When every module of the tree lies under the root path,
    [findDependencies] lists the whole tree, each module before the
    modules it required; a module outside the root hides the modules it
    required, wherever they lie. *)
Theorem findDependencies_complete this mdl :
  (Forall (fun id => JS.startsWith id (path this) = true) (module_ids mdl) ->
   findDependencies this mdl [] = module_ids mdl)
  /\ (forall id children,
        mdl = Build_NodeModule id children ->
        JS.startsWith id (path this) = false ->
        forall deps, findDependencies this mdl deps = deps).
Proof.
  split.
  - induction mdl as [id children IH] using NodeModule_ind.
    intros Hall. rewrite findDependencies_unfold. simpl in Hall.
    inversion Hall as [|? ? Hid Hrest]; subst.
    unfold shouldFindDependencies. rewrite Hid. cbv iota.
    change (module_ids (Build_NodeModule id children))
      with (id :: flat_map module_ids children).
    f_equal.
    clear Hall Hid. revert Hrest.
    induction IH as [|c r Hc _ IHr]; simpl; [reflexivity|].
    intros Hrest. apply Forall_app in Hrest as [Hc' Hr'].
    rewrite (Hc Hc'), (IHr Hr'). reflexivity.
  - intros id children -> Hout deps. simpl.
    unfold shouldFindDependencies. now rewrite Hout.
Qed.

(** *** Stacks *)

Lemma split_lines_nonempty s : split_lines s <> [].
Proof.
  destruct s as [|c r]; simpl; [discriminate|].
  destruct (Ascii.eqb c newline); [discriminate|].
  destruct (split_lines r); discriminate.
Qed.

Lemma split_lines_one_line s : Forall (fun l => one_line l = true) (split_lines s).
Proof.
  induction s as [|c r IH]; simpl.
  - repeat constructor.
  - destruct (Ascii.eqb c newline) eqn:E.
    + constructor; [reflexivity|exact IH].
    + destruct (split_lines r) as [|h t].
      * repeat constructor. simpl. now rewrite E.
      * inversion IH; subst. constructor; [|assumption].
        simpl. rewrite E. assumption.
Qed.

(** Splitting what lies before a line break, then what lies after. *)
Lemma split_lines_break a b :
  split_lines (a +:+ String newline b) = split_lines a ++ split_lines b.
Proof.
  induction a as [|c r IH].
  - rewrite string_append_nil. simpl. rewrite ?Ascii.eqb_refl. reflexivity.
  - rewrite string_append_cons. simpl.
    destruct (Ascii.eqb c newline); [now rewrite IH|].
    rewrite IH. pose proof (split_lines_nonempty r).
    destruct (split_lines r); [contradiction|reflexivity].
Qed.

Lemma split_lines_single s : one_line s = true -> split_lines s = [s].
Proof.
  induction s as [|c r IH]; simpl; [reflexivity|].
  destruct (Ascii.eqb c newline); simpl; [discriminate|].
  intros H. now rewrite (IH H).
Qed.

(** Joining lines and splitting again. *)
Lemma split_join_lines lines :
  lines <> [] ->
  Forall (fun l => one_line l = true) lines ->
  split_lines (join_lines lines) = lines.
Proof.
  intros Hne Hall. induction Hall as [|l r Hl Hr IH]; [contradiction|].
  unfold join_lines in *. destruct r as [|l' r'].
  - simpl. now apply split_lines_single.
  - change (String.concat (String newline "") (l :: l' :: r'))
      with (l +:+ String newline (String.concat (String newline "") (l' :: r'))).
    rewrite split_lines_break, split_lines_single by exact Hl.
    rewrite IH by discriminate. reflexivity.
Qed.

(** X24. The stack of a [ProxyError] is made of the first two lines of
    its own stack (all of it, if it has fewer) followed by every line of
    the stack of the error it wraps, unchanged. *)
Theorem createStackProxy_lines newStack oldStack :
  split_lines (createStackProxy newStack oldStack)
  = take 2 (split_lines newStack) ++ split_lines oldStack.
Proof.
  unfold createStackProxy.
  change (String newline "" +:+ oldStack) with (String newline oldStack).
  rewrite split_lines_break. f_equal.
  apply split_join_lines.
  - pose proof (split_lines_nonempty newStack).
    destruct (split_lines newStack); [contradiction|discriminate].
  - apply Forall_take, split_lines_one_line.
Qed.

(* ===================================================================== *)
(** ** Names derived in nested mode                                      *)
(* ===================================================================== *)

Lemma get_append_r a b j :
  String.get (String.length a + j) (a +:+ b) = String.get j b.
Proof.
  induction a as [|c a IH]; [reflexivity|].
  rewrite string_append_cons. simpl. exact IH.
Qed.

Lemma get_in j s c :
  String.get j s = Some c -> In c (list_ascii_of_string s).
Proof.
  revert j. induction s as [|x s IH]; intros j; simpl; [discriminate|].
  destruct j as [|j]; [intros [= ->]; now left|].
  intros H. right. eapply IH, H.
Qed.

Lemma is_slash_get_false j s :
  ~ In "/"%char (list_ascii_of_string s) ->
  Posix.is_slash (String.get j s) = false.
Proof.
  intros Hno. unfold Posix.is_slash.
  destruct (String.get j s) as [c|] eqn:E; [|reflexivity].
  destruct (Ascii.eqb c "/") eqn:Ec; [|reflexivity].
  apply Ascii.eqb_eq in Ec as ->. destruct Hno. eapply get_in, E.
Qed.

(** The scan of [posix.dirname] runs over a last segment with no slash
    without stopping. *)
Lemma dirname_scan_last_segment d m k b :
  ~ In "/"%char (list_ascii_of_string m) ->
  Posix.dirname_scan (d +:+ "/" +:+ m) (String.length d + k) b
  = Posix.dirname_scan (d +:+ "/" +:+ m) (String.length d)
      (if k is O then b else false).
Proof.
  intros Hno. revert b. induction k as [|k IH]; intros b.
  - now rewrite Nat.add_0_r.
  - rewrite Nat.add_succ_r. simpl Posix.dirname_scan.
    replace (S (String.length d + k)) with (String.length (d +:+ "/") + k)%nat
      by (rewrite string_length_append; simpl; lia).
    rewrite <- string_append_assoc, get_append_r, string_append_assoc.
    rewrite (is_slash_get_false k m Hno).
    replace (String.length (d +:+ "/") + k)%nat
      with (S (String.length d + k))
      by (rewrite string_length_append; simpl; lia).
    rewrite IH. now destruct k.
Qed.

Lemma dirname_scan_S p i b :
  Posix.dirname_scan p (S i) b
  = if Posix.is_slash (String.get (S i) p)
    then if b then Posix.dirname_scan p i true else Some (S i)
    else Posix.dirname_scan p i false.
Proof. reflexivity. Qed.

Lemma posix_dirname_of_entry d m :
  d <> "" -> d <> "/" -> m <> "" ->
  ~ In "/"%char (list_ascii_of_string m) ->
  Posix.dirname (d +:+ "/" +:+ m) = d.
Proof.
  intros Hd Hroot Hm Hno. unfold Posix.dirname.
  destruct (d +:+ "/" +:+ m) as [|c0 p0] eqn:Ep.
  { destruct d; [contradiction|discriminate]. }
  rewrite <- Ep.
  replace (String.length (d +:+ "/" +:+ m) - 1)%nat
    with (String.length d + String.length m)%nat
    by (rewrite !string_length_append; simpl; lia).
  rewrite dirname_scan_last_segment by exact Hno.
  assert (Hscan : Posix.dirname_scan (d +:+ "/" +:+ m) (String.length d)
                    (match String.length m with O => true | S _ => false end)
                  = Some (String.length d)).
  { destruct m as [|cm m']; [contradiction|]. simpl (String.length (String _ _)).
    cbv iota.
    assert (Hget : String.get (String.length d)
                     (d +:+ "/" +:+ String cm m') = Some "/"%char).
    { rewrite <- (Nat.add_0_r (String.length d)) at 1.
      now rewrite get_append_r. }
    destruct (String.length d) as [|n] eqn:El.
    { destruct d; [contradiction|discriminate]. }
    rewrite dirname_scan_S, Hget. reflexivity. }
  rewrite Hscan.
  assert (Hnot : (Posix.is_slash (String.get 0 (d +:+ "/" +:+ m))
                  && Nat.eqb (String.length d) 1)%bool = false).
  { destruct d as [|c [|c' d']]; [contradiction| |].
    - simpl. destruct (Ascii.eqb c "/") eqn:E; [|reflexivity].
      apply Ascii.eqb_eq in E as ->. contradiction.
    - simpl. apply andb_false_r. }
  rewrite Hnot. apply substring_append_l.
Qed.

(** X25. In nested mode the name derived from the path of a main file
    [<dir>/<mainFile>] is [<dir>], the whole path of the unit's directory
    and not the name of that directory; it is also the path given to the
    watcher. A unit loaded with no name is registered under it. *)
Theorem nested_name_is_directory_path
  cwd this host d m emit_ st r st1 :
  nested this = true ->
  d <> "" -> d <> "/" -> m <> "" ->
  ~ In "/"%char (list_ascii_of_string m) ->
  fileMap st !! (d +:+ "/" +:+ m) = None ->
  loadFromPath (Posix.path cwd) this host (d +:+ "/" +:+ m) None emit_ st
  = (Ok (Instance r), st1) ->
  extractNameFromFilePath (Posix.path cwd) this (d +:+ "/" +:+ m) = d
  /\ getWatchPath (Posix.path cwd) this (d +:+ "/" +:+ m) = d
  /\ nameMap st1 !! Instance r = Some d
  /\ findPathFromName st1 d = Some (d +:+ "/" +:+ m).
Proof.
  intros Hnested Hd Hroot Hm Hno Hnone Hload.
  assert (Hname : extractNameFromFilePath (Posix.path cwd) this
                    (d +:+ "/" +:+ m) = d).
  { unfold extractNameFromFilePath. rewrite Hnested. simpl.
    now apply posix_dirname_of_entry. }
  split; [exact Hname|]. split.
  { unfold getWatchPath. rewrite Hnested. simpl.
    now apply posix_dirname_of_entry. }
  apply loadFromPath_rows in Hload as (_ & [(mdl & [=] & _)|(Hu & Hn & Hp & _)]);
    [|exact Hnone].
  unfold nameOrDerived in Hn, Hp. simpl JS.truthy in Hn, Hp. cbv iota in Hn, Hp.
  rewrite Hname in Hn, Hp. unfold findPathFromName.
  rewrite Hn, Hp, Hu. split; apply lookup_insert_eq.
Qed.

(* ===================================================================== *)
(** ** The variant without a watcher                                     *)
(* ===================================================================== *)

Section InPlaceProperties.

Variable P : PathModule.
Variable this : LoaderConfig.
Variable host : Host.

(** A successful [loadFromPath] of the variant, on a path that is loaded
    or not, when a constructor is found. *)
Lemma InPlace_loadFromPath_instance filePath name st mdl c u st1 :
  import_ host filePath = inr mdl ->
  instantiate (classes this) = true ->
  findConstructor this host (nameOrDerived P this name filePath) mdl = Some c ->
  InPlace.loadFromPath P this host filePath name st = (Ok u, st1) ->
  u = Instance (nextRef st)
  /\ fileMap st1 = <[filePath := u]> (fileMap st)
  /\ nameMap st1 = <[u := nameOrDerived P this name filePath]> (nameMap st)
  /\ pathMap st1
     = <[processName (nameOrDerived P this name filePath) := filePath]>
         (pathMap st)
  /\ events (trace st1)
     = events (trace st)
       ++ [match fileMap st !! filePath with
           | Some old => EvReload u old
           | None => EvLoad (Some (ctor_name c)) u
           end].
Proof.
  intros Himp Hinst Hctor.
  unfold InPlace.loadFromPath, importFile, call_destroy, new_,
    InPlace.emit_loaded.
  unfold_M. rewrite Himp. cbn [log fileMap]. rewrite Hinst.
  cbv iota zeta beta. rewrite Hctor.
  destruct (fileMap st !! filePath) as [old|]; cbv iota beta;
    [destruct (destroy (classes this)) as [d|]; cbv iota beta;
     [destruct (d old)|]|];
    unfold modify; simpl; try (intros H; discriminate H);
    destruct (construct host c (params (classes this)));
    simpl; try (intros H; discriminate H);
    intros Heq; inversion Heq; subst; clear Heq; simpl;
    rewrite !events_app; simpl; rewrite ?app_nil_r; repeat split; reflexivity.
Qed.

(** X26. In the variant without a watcher [reloadFromPath] of a loaded
    instance reads the old name while the old rows are still there: the
    new instance is registered under the name of the old one, whether
    that name was derived or given, and the only event is [reload]. *)
Theorem InPlace_reload_keeps_name filePath autoLoad st old n mdl c u st1 :
  fileMap st !! filePath = Some old ->
  nameMap st !! old = Some n ->
  n <> "" ->
  import_ host filePath = inr mdl ->
  instantiate (classes this) = true ->
  findConstructor this host n mdl = Some c ->
  InPlace.reloadFromPath P this host filePath autoLoad st = (Ok (Some u), st1) ->
  fileMap st1 !! filePath = Some u
  /\ nameMap st1 !! u = Some n
  /\ findPathFromName st1 n = Some filePath
  /\ events (trace st1) = events (trace st) ++ [EvReload u old].
Proof.
  intros Hin Hn Hne Himp Hinst Hctor.
  unfold InPlace.reloadFromPath. unfold_M. cbn [log fileMap nameMap].
  rewrite Hin, Hn. rewrite bool_decide_eq_true_2 by eauto.
  rewrite orb_true_l. cbv iota beta.
  destruct (InPlace.loadFromPath P this host filePath (Some n)
              (log (CacheDelete filePath) st)) as [[file|e] st2] eqn:Hload;
    cbv beta iota; [|intros H; discriminate H].
  intros [= <- <-].
  assert (Hname : nameOrDerived P this (Some n) filePath = n).
  { unfold nameOrDerived. destruct n; [contradiction|reflexivity]. }
  apply (InPlace_loadFromPath_instance _ _ _ mdl c) in Hload;
    [|assumption|assumption|now rewrite Hname].
  destruct Hload as (_ & Hf & Hnm & Hp & Hev).
  rewrite Hname in *. simpl in Hf, Hnm, Hp, Hev. rewrite Hin in Hev.
  unfold findPathFromName. rewrite Hf, Hnm, Hp, Hev.
  rewrite !lookup_insert_eq, events_app. simpl. rewrite app_nil_r. auto.
Qed.

(** X27. The variant does not delete the name row of the instance it
    replaces: after a reload that instantiates again, the old instance is
    stored nowhere but still has its name. *)
Theorem InPlace_reload_leaves_old_name filePath autoLoad st ro n mdl c u st1 :
  Consistent st ->
  fileMap st !! filePath = Some (Instance ro) ->
  nameMap st !! Instance ro = Some n ->
  n <> "" ->
  import_ host filePath = inr mdl ->
  instantiate (classes this) = true ->
  findConstructor this host n mdl = Some c ->
  InPlace.reloadFromPath P this host filePath autoLoad st = (Ok (Some u), st1) ->
  u <> Instance ro
  /\ nameMap st1 !! Instance ro = Some n
  /\ (forall f, fileMap st1 !! f <> Some (Instance ro))
  /\ ~ Consistent st1.
Proof.
  intros Hc Hin Hn Hne Himp Hinst Hctor.
  unfold InPlace.reloadFromPath. unfold_M. cbn [log fileMap nameMap].
  rewrite Hin, Hn. rewrite bool_decide_eq_true_2 by eauto.
  rewrite orb_true_l. cbv iota beta.
  destruct (InPlace.loadFromPath P this host filePath (Some n)
              (log (CacheDelete filePath) st)) as [[file|e] st2] eqn:Hload;
    cbv beta iota; [|intros H; discriminate H].
  intros [= <- <-].
  assert (Hname : nameOrDerived P this (Some n) filePath = n).
  { unfold nameOrDerived. destruct n; [contradiction|reflexivity]. }
  apply (InPlace_loadFromPath_instance _ _ _ mdl c) in Hload;
    [|assumption|assumption|now rewrite Hname].
  destruct Hload as (Hu & Hf & Hnm & _ & _).
  rewrite Hname in *. simpl in Hu, Hf, Hnm.
  pose proof (Consistent_stored_fresh _ _ _ Hc Hin) as Hlt.
  assert (Hneq : file <> Instance ro).
  { rewrite Hu. intros [= Heq]. lia. }
  assert (Hold : nameMap st2 !! Instance ro = Some n).
  { rewrite Hnm, lookup_insert_ne; [exact Hn|exact Hneq]. }
  assert (Hgone : forall f, fileMap st2 !! f <> Some (Instance ro)).
  { intros f Hf'. rewrite Hf in Hf'.
    destruct (decide (f = filePath)) as [->|Hnf].
    - rewrite lookup_insert_eq in Hf'. congruence.
    - rewrite lookup_insert_ne in Hf' by congruence.
      apply Hnf. eapply (instance_stored_once st Hc); eauto. }
  repeat split; auto.
  intros Hc2. destruct (named_is_stored st2 Hc2 _ _ Hold) as (f & _ & Hf').
  exact (Hgone f Hf').
Qed.

(** X28. In the variant the [load] event of a unit that was instantiated
    carries the name of its constructor, not the name the unit is
    registered under. *)
Theorem InPlace_load_event_names_constructor filePath name st mdl c u st1 :
  fileMap st !! filePath = None ->
  import_ host filePath = inr mdl ->
  instantiate (classes this) = true ->
  findConstructor this host (nameOrDerived P this name filePath) mdl = Some c ->
  InPlace.loadFromPath P this host filePath name st = (Ok u, st1) ->
  events (trace st1)
  = events (trace st) ++ [EvLoad (Some (ctor_name c)) u]
  /\ findPathFromName st1 (nameOrDerived P this name filePath) = Some filePath.
Proof.
  intros Hnone Himp Hinst Hctor Hload.
  apply (InPlace_loadFromPath_instance _ _ _ mdl c) in Hload; try assumption.
  destruct Hload as (_ & _ & _ & Hp & Hev). rewrite Hnone in Hev.
  split; [exact Hev|]. unfold findPathFromName. rewrite Hp.
  apply lookup_insert_eq.
Qed.

End InPlaceProperties.

(* ===================================================================== *)
(** ** The watch list                                                    *)
(* ===================================================================== *)

Section WatchListProperties.

Import WatchList.

Variables (P : PathModule) (this : LoaderConfig).

Lemma endsWith_append a b : endsWith (a +:+ b) b = true.
Proof.
  unfold endsWith. rewrite string_length_append.
  apply andb_true_intro. split; [apply Nat.leb_le; lia|].
  replace (String.length a + String.length b - String.length b)%nat
    with (String.length a) by lia.
  rewrite substring_append_r, substring_whole. apply String.eqb_refl.
Qed.

Lemma with_sep_ends dir : endsWith (with_sep P dir) (sep P) = true.
Proof.
  unfold with_sep. destruct (endsWith dir (sep P)) eqn:E; [exact E|].
  apply endsWith_append.
Qed.

Lemma has_In dir l : has dir l = true <-> In dir (map fst l).
Proof.
  unfold has. rewrite existsb_exists, in_map_iff. split.
  - intros (e & He & Heq). apply String.eqb_eq in Heq. eauto.
  - intros (e & Heq & He). exists e. split; [exact He|].
    now apply String.eqb_eq.
Qed.

Lemma has_app dir l e : has dir (l ++ [e]) = (has dir l || String.eqb (fst e) dir)%bool.
Proof. unfold has. rewrite existsb_app. simpl. now rewrite orb_false_r. Qed.

Lemma delete_keys dir l :
  map fst (delete dir l)
  = List.filter (fun d => negb (String.eqb d dir)) (map fst l).
Proof.
  induction l as [|e l IH]; [reflexivity|].
  simpl. destruct (String.eqb (fst e) dir); simpl; now rewrite IH.
Qed.

Lemma watched_dirs_snoc cs c :
  watched_dirs (cs ++ [c]) = told (watched_dirs cs) c.
Proof. unfold watched_dirs. now rewrite fold_left_app. Qed.

Lemma step_mirrors w op : mirrors P w -> mirrors P (step P this w op).
Proof.
  intros (Hsep & Hnd & Hw). destruct op as [dir nested_|dir]; simpl.
  - unfold watch. destruct (watcher this); [|now repeat split].
    destruct (has _ (watchList w)) eqn:Hhas; [now repeat split|].
    split; [|split]; cbn [watchList calls].
    + apply Forall_app. split; [exact Hsep|].
      constructor; [apply with_sep_ends|constructor].
    + rewrite map_app. cbn [map fst].
      apply List.NoDup_app; [exact Hnd|repeat constructor; intros []|].
      intros x Hx [<-|[]]. apply has_In in Hx. congruence.
    + rewrite map_app, watched_dirs_snoc, <- Hw. reflexivity.
  - unfold unwatch. destruct (watcher this); [|now repeat split].
    split; [|split]; cbn [watchList calls].
    + unfold delete. apply Forall_forall. intros e He.
      apply list_elem_of_In, filter_In in He as [He _].
      rewrite Forall_forall in Hsep. apply Hsep, list_elem_of_In, He.
    + rewrite delete_keys. now apply List.NoDup_filter.
    + rewrite delete_keys, watched_dirs_snoc, <- Hw. reflexivity.
Qed.

(** X29. Over any sequence of [watch] and [unwatch] calls on a new
    loader, [watchList] mirrors the watcher: its keys are, in order, the
    directories the watcher was told to watch and not told to stop
    watching since; no directory is there twice; and every key ends with
    the path separator. *)
Theorem watchList_mirrors_watcher ops :
  let w := run P this ops no_watching in
  Forall (fun e => endsWith (fst e) (sep P) = true) (watchList w)
  /\ List.NoDup (map fst (watchList w))
  /\ map fst (watchList w) = watched_dirs (calls w).
Proof.
  cbv zeta. change (mirrors P (run P this ops no_watching)).
  assert (H0 : mirrors P no_watching).
  { split; [constructor|]. split; [constructor|reflexivity]. }
  revert H0. generalize no_watching. unfold run.
  induction ops as [|op ops IH]; intros w Hw; [exact Hw|].
  simpl. apply IH, step_mirrors, Hw.
Qed.

(** X30. Watching a directory that is watched changes nothing, with or
    without the separator at its end: the watcher is not called again
    and the [nested] flag of the first call stays. *)
Theorem watch_again_changes_nothing dir nested_ dir' nested_' w :
  with_sep P (default (path this) dir') = with_sep P (default (path this) dir) ->
  watch P this dir' nested_' (watch P this dir nested_ w)
  = watch P this dir nested_ w.
Proof.
  intros Heq. unfold watch at 1. rewrite Heq.
  destruct (watcher this) eqn:Hw; [|reflexivity].
  assert (has (with_sep P (default (path this) dir))
            (watchList (watch P this dir nested_ w)) = true) as ->;
    [|reflexivity].
  unfold watch. rewrite Hw.
  destruct (has _ (watchList w)) eqn:Hhas; [exact Hhas|].
  cbn [watchList]. rewrite has_app. cbn [fst].
  rewrite String.eqb_refl. apply orb_true_r.
Qed.

End WatchListProperties.

Lemma watch_again_changes_nothing_witness :
  WatchList.with_sep Examples.posix "/mods/"
  = WatchList.with_sep Examples.posix "/mods"
  /\ WatchList.watchList
       (WatchList.watch Examples.posix Examples.nested_watch (Some "/mods/")
          (Some false)
          (WatchList.watch Examples.posix Examples.nested_watch (Some "/mods")
             None WatchList.no_watching))
     = [("/mods/", true)].
Proof.
  split; [reflexivity|].
  rewrite (watch_again_changes_nothing Examples.posix Examples.nested_watch
             (Some "/mods") None (Some "/mods/") (Some false)
             WatchList.no_watching eq_refl).
  reflexivity.
Defined.

(* ===================================================================== *)
(** ** The properties at concrete loaders                                *)
(* ===================================================================== *)

Section MoreRuns.

Import Examples MoreExamples.

Lemma a_loaded_reachable : Reachable posix flat a_loaded.
Proof.
  apply (Reachable_step posix flat initial_state host
           (OpLoadFromPath "/d/a.ts" None true)).
  - apply Reachable_new.
  - intros _ u n Hu. vm_compute in Hu. discriminate.
Qed.


Lemma inplace_loaded_consistent : Consistent inplace_loaded.
Proof.
  apply (Consistent_same_rows custom_loaded).
  - apply (loadFromPath_consistent posix flat host "/d/a.ts" (Some "custom")
             true initial_state Consistent_initial).
    intros _ u n Hu. vm_compute in Hu. discriminate.
  - split; [reflexivity|]. split; [reflexivity|]. split; [reflexivity|].
    vm_compute. lia.
Qed.

Lemma loadFromPath_import_failure_witness :
  fileMap initial_state !! "/d/missing.ts" = None
  /\ import_ host "/d/missing.ts" = inl "Cannot find module"
  /\ exists st1,
       loadFromPath posix flat host "/d/missing.ts" None true initial_state
       = (Throw (FileLoadError (Thrown "Cannot find module") "/d/missing.ts"),
          st1)
       /\ events (trace st1) = events (trace initial_state)
       /\ fileMap st1 !! "/d/missing.ts" = None.
Proof.
  split; [reflexivity|]. split; [reflexivity|].
  destruct (loadFromPath_import_failure posix flat host "/d/missing.ts" None
              true initial_state "Cannot find module" eq_refl eq_refl)
    as (st1 & H1 & _ & _ & _ & H5 & H6).
  exists st1. split; [exact H1|]. split; [exact H5|exact H6].
Defined.

Lemma loadFromPath_constructor_failure_witness :
  construct host_throwing Alpha [] = Some "constructor failed"
  /\ exists st1,
       loadFromPath posix flat host_throwing "/d/a.ts" None true initial_state
       = (Throw (Thrown "constructor failed"), st1)
       /\ fileMap st1 !! "/d/a.ts" = None.
Proof.
  split; [reflexivity|].
  destruct (loadFromPath_constructor_failure posix flat host_throwing
              "/d/a.ts" None true initial_state 1%nat Alpha
              "constructor failed" eq_refl eq_refl eq_refl eq_refl eq_refl)
    as (st1 & H1 & _ & H3 & _).
  exists st1. split; [exact H1|exact H3].
Defined.

Lemma unloadFromPath_twice_witness :
  unloadFromPath posix flat "/d/a.ts" true a_loaded
  = (Ok (Some (Instance 0)), a_unloaded)
  /\ unloadFromPath posix flat "/d/a.ts" true a_unloaded = (Ok None, a_unloaded).
Proof.
  split; [reflexivity|].
  apply (unloadFromPath_twice posix flat "/d/a.ts" true true a_loaded
           (Instance 0) a_unloaded).
  reflexivity.
Defined.



Lemma reloadFromPath_import_failure_witness :
  fileMap a_loaded !! "/d/a.ts" = Some (Instance 0)
  /\ exists st',
       reloadFromPath posix flat host_gone "/d/a.ts" a_loaded
       = (Throw (FileLoadError (Thrown "Cannot find module") "/d/a.ts"), st')
       /\ fileMap st' !! "/d/a.ts" = None
       /\ events (trace st')
          = events (trace a_loaded) ++ [EvUnload (Instance 0)].
Proof.
  split; [reflexivity|].
  destruct (reloadFromPath_import_failure posix flat host_gone "/d/a.ts"
              a_loaded (Instance 0) "Cannot find module" eq_refl I eq_refl)
    as (st' & H1 & _ & H3 & _ & H5).
  exists st'. split; [exact H1|]. split; [exact H3|exact H5].
Defined.


Lemma by_name_unknown_witness :
  findPathFromName a_loaded "ghost" = None
  /\ unload posix flat "ghost" a_loaded = (Ok None, a_loaded)
  /\ reload posix flat host "ghost" a_loaded
     = (Throw (FileNotFoundError "ghost"), a_loaded).
Proof.
  split; [reflexivity|].
  apply (by_name_unknown posix flat host "ghost" a_loaded). reflexivity.
Defined.

Lemma by_name_any_case_witness :
  processName "FOO" = processName (nameOrDerived posix flat None "/d/Foo.ts")
  /\ unload posix flat "FOO" Foo_loaded
     = unloadFromPath posix flat "/d/Foo.ts" true Foo_loaded
  /\ reload posix flat host "FOO" Foo_loaded
     = reloadFromPath posix flat host "/d/Foo.ts" Foo_loaded.
Proof.
  split; [reflexivity|].
  apply (by_name_any_case posix flat host "/d/Foo.ts" None true initial_state
           O Foo_loaded "FOO"); try reflexivity.
  discriminate.
Defined.

Lemma only_load_adds_paths_witness :
  no_new_path a_loaded
    (exec posix flat host (OpWatcherEvent "/d/Foo.ts") a_loaded)
  /\ no_new_path a_loaded (exec posix flat host (OpReload "a") a_loaded).
Proof.
  split.
  - apply (only_load_adds_paths posix flat host (OpWatcherEvent "/d/Foo.ts")
             a_loaded). discriminate.
  - apply (only_load_adds_paths posix flat host (OpReload "a") a_loaded).
    discriminate.
Defined.

Lemma named_unit_is_stored_witness :
  nameMap a_loaded !! Instance 0 = Some "a"
  /\ exists r filePath,
       Instance 0 = Instance r
       /\ (r < nextRef a_loaded)%nat
       /\ findPathFromName a_loaded "a" = Some filePath
       /\ fileMap a_loaded !! filePath = Some (Instance 0).
Proof.
  split; [reflexivity|].
  apply (named_unit_is_stored posix flat a_loaded (Instance 0) "a"
           a_loaded_reachable).
  reflexivity.
Defined.

Lemma instance_stored_at_one_path_witness :
  fileMap a_loaded !! "/d/a.ts" = Some (Instance 0)
  /\ "/d/a.ts" = "/d/a.ts" /\ (0 < nextRef a_loaded)%nat.
Proof.
  split; [reflexivity|].
  apply (instance_stored_at_one_path posix flat a_loaded "/d/a.ts" "/d/a.ts" O
           a_loaded_reachable); reflexivity.
Defined.

Lemma watcherFilePath_nested_is_directory_name_witness :
  JS.indexOf "bakery" (sep posix) = -1
  /\ watcherFilePath posix nested_watch
       (path nested_watch +:+ sep posix +:+ "bakery" +:+ sep posix
        +:+ "lib/x.ts")
     = "bakery"
  /\ onWatcherEvent posix nested_watch host
       (path nested_watch +:+ sep posix +:+ "bakery" +:+ sep posix
        +:+ "lib/x.ts") bakery_loaded
     = (Ok tt, bakery_loaded).
Proof.
  split; [reflexivity|].
  destruct (watcherFilePath_nested_is_directory_name posix nested_watch host
              "/"%char "bakery" "lib/x.ts" bakery_loaded
              eq_refl eq_refl eq_refl) as (H1 & H2).
  split; [exact H1|]. apply H2. reflexivity.
Defined.

Lemma loadFiles_readdir_failure_witness :
  readdir (batch_dir flat (Some "/nowhere")) = inl "ENOENT"
  /\ exists s',
       loadFiles posix join readdir flat host (Some "/nowhere") None listening
       = (Throw (LoadFilesError (Thrown "ENOENT") "/nowhere"), s')
       /\ loader s' = loader listening
       /\ _ready s' = false.
Proof.
  split; [reflexivity|].
  destruct (loadFiles_readdir_failure posix join readdir flat host
              (Some "/nowhere") None listening "ENOENT" eq_refl)
    as (s' & H1 & H2 & H3 & _).
  exists s'. split; [exact H1|]. split; [exact H2|exact H3].
Defined.

Lemma loadFiles_partial_failure_witness :
  errorListener listening = true
  /\ exists instances errs s',
       loadFiles posix join readdir flat host None None listening
       = (Ok instances, s')
       /\ _ready s' = true
       /\ batch_events (batchLog s')
          = batch_events (batchLog listening) ++ map EvError errs
            ++ [EvLoadMany instances] ++ [EvReady]
       /\ (List.length instances + List.length errs = 3)%nat.
Proof.
  split; [reflexivity|].
  destruct (loadFiles_partial_failure posix join readdir flat host None None
              listening ["a.ts"; "notes.md"; "broken.ts"; "Foo.ts"]
              eq_refl eq_refl)
    as (instances & errs & s' & H1 & H2 & H3 & H4).
  exists instances, errs, s'.
  split; [exact H1|]. split; [exact H2|]. split; [exact H3|exact H4].
Defined.

Lemma loadFiles_without_error_listener_witness :
  errorListener new_session = false
  /\ fst (loadFiles posix join readdir flat host None None new_session)
     = Throw (FileLoadError (Thrown "Cannot find module") "/d/broken.ts")
  /\ _ready (snd (loadFiles posix join readdir flat host None None
                    new_session)) = _ready new_session
  /\ batch_events (batchLog (snd (loadFiles posix join readdir flat host None
                                    None new_session)))
     = batch_events (batchLog new_session).
Proof.
  split; [reflexivity|]. split; [reflexivity|].
  apply (loadFiles_without_error_listener posix join readdir flat host None
           None new_session ["a.ts"; "notes.md"; "broken.ts"; "Foo.ts"]
           (Throw (FileLoadError (Thrown "Cannot find module") "/d/broken.ts"))
           (snd (loadFiles posix join readdir flat host None None new_session)));
    reflexivity.
Defined.

Lemma loadFiles_instances_are_stored_witness :
  loadFiles posix join readdir flat_ignoring host None None listening
  = (Ok [Instance 0],
     snd (loadFiles posix join readdir flat_ignoring host None None listening))
  /\ Forall (fun u =>
               exists fileName,
                 In fileName ["a.ts"; "notes.md"; "broken.ts"; "Foo.ts"]
                 /\ ~ In fileName (ignored flat_ignoring)
                 /\ isFileValid posix flat_ignoring fileName
                      (batch_nested flat_ignoring None None) = true
                 /\ fileMap
                      (loader (snd (loadFiles posix join readdir flat_ignoring
                                      host None None listening)))
                    !! getMainFilePath join flat_ignoring fileName
                         (Some (batch_dir flat_ignoring None))
                         (batch_nested flat_ignoring None None)
                    = Some u) [Instance 0].
Proof.
  split; [reflexivity|].
  apply (loadFiles_instances_are_stored posix join readdir flat_ignoring host
           None None listening ["a.ts"; "notes.md"; "broken.ts"; "Foo.ts"]
           [Instance 0]
           (snd (loadFiles posix join readdir flat_ignoring host None None
                   listening))); reflexivity.
Defined.

Lemma loadFiles_imports_only_valid_entries_witness :
  readdir (batch_dir flat_ignoring None)
  = inr ["a.ts"; "notes.md"; "broken.ts"; "Foo.ts"]
  /\ exists l,
       imports (trace (loader
                  (snd (loadFiles posix join readdir flat_ignoring host None
                          None listening))))
       = imports (trace (loader listening)) ++ l
       /\ ~ In "/d/Foo.ts" l /\ ~ In "/d/notes.md" l.
Proof.
  split; [reflexivity|].
  destruct (loadFiles_imports_only_valid_entries posix join readdir
              flat_ignoring host None None listening
              ["a.ts"; "notes.md"; "broken.ts"; "Foo.ts"] eq_refl)
    as (l & Hl & Hin).
  exists l. split; [exact Hl|]. split.
  - intros H. destruct (Hin _ H) as (f & Hf & Hno & _ & Hp).
    destruct Hf as [<-|[<-|[<-|[<-|[]]]]]; try discriminate Hp.
    apply Hno. now left.
  - intros H. destruct (Hin _ H) as (f & Hf & _ & Hv & Hp).
    destruct Hf as [<-|[<-|[<-|[<-|[]]]]]; try discriminate Hp.
    discriminate Hv.
Defined.

Lemma loadFiles_again_witness :
  loadFiles posix join readdir_clean flat host None None new_session
  = (Ok [Instance 0; Instance 1],
     snd (loadFiles posix join readdir_clean flat host None None new_session))
  /\ exists s2,
       loadFiles posix join readdir_clean flat host None None
         (snd (loadFiles posix join readdir_clean flat host None None
                 new_session))
       = (Ok [Instance 0; Instance 1], s2)
       /\ loader s2
          = loader (snd (loadFiles posix join readdir_clean flat host None
                           None new_session))
       /\ _ready s2 = true.
Proof.
  split; [reflexivity|].
  destruct (loadFiles_again posix join readdir_clean flat host None None
              new_session ["a.ts"; "notes.md"; "Foo.ts"]
              [Instance 0; Instance 1]
              (snd (loadFiles posix join readdir_clean flat host None None
                      new_session)) eq_refl eq_refl eq_refl)
    as (s2 & H1 & H2 & H3 & _).
  exists s2. split; [exact H1|]. split; [exact H2|exact H3].
Defined.

Lemma isFileValid_upper_case_extensions_witness :
  allowedFileExts flat_upper = [".TS"]
  /\ isFileValid posix flat_upper "a.TS" None = false
  /\ isFileValid posix flat_upper "a.ts" None = false.
Proof.
  split; [reflexivity|].
  split; apply (isFileValid_upper_case_extensions posix flat_upper);
    try reflexivity;
    intros ext [<-|[]]; vm_compute; discriminate.
Defined.

Lemma findDependencies_complete_witness :
  findDependencies flat util_module [] = module_ids util_module
  /\ findDependencies flat
       (Build_NodeModule "/node_modules/pkg/index.js"
          [Build_NodeModule "/d/lib/util.ts" []]) ["/d/a.ts"]
     = ["/d/a.ts"].
Proof.
  split.
  - apply (proj1 (findDependencies_complete flat util_module)).
    repeat constructor.
  - apply (proj2 (findDependencies_complete flat
                    (Build_NodeModule "/node_modules/pkg/index.js"
                       [Build_NodeModule "/d/lib/util.ts" []]))
             "/node_modules/pkg/index.js"
             [Build_NodeModule "/d/lib/util.ts" []] eq_refl eq_refl).
Defined.

Lemma nested_name_is_directory_path_witness :
  extractNameFromFilePath (Posix.path "/home/app") nested_watch
    ("/mods/bakery" +:+ "/" +:+ "main.ts") = "/mods/bakery"
  /\ findPathFromName bakery_loaded "/mods/bakery"
     = Some ("/mods/bakery" +:+ "/" +:+ "main.ts")
  /\ findPathFromName bakery_loaded "bakery" = None.
Proof.
  destruct (nested_name_is_directory_path "/home/app" nested_watch host
              "/mods/bakery" "main.ts" true initial_state O bakery_loaded)
    as (H1 & _ & _ & H4); try reflexivity; try discriminate.
  { intros H. vm_compute in H. repeat destruct H as [H|H]; try discriminate H.
    exact H. }
  split; [exact H1|]. split; [exact H4|reflexivity].
Defined.

Lemma InPlace_reload_keeps_name_witness :
  nameMap inplace_loaded !! Instance 0 = Some "custom"
  /\ nameMap inplace_reloaded !! Instance 1 = Some "custom"
  /\ findPathFromName inplace_reloaded "custom" = Some "/d/a.ts"
  /\ events (trace inplace_reloaded)
     = events (trace inplace_loaded) ++ [EvReload (Instance 1) (Instance 0)].
Proof.
  split; [reflexivity|].
  destruct (InPlace_reload_keeps_name posix flat host "/d/a.ts" true
              inplace_loaded (Instance 0) "custom" 1%nat Alpha (Instance 1)
              inplace_reloaded) as (_ & H2 & H3 & H4);
    try reflexivity; try discriminate.
  split; [exact H2|]. split; [exact H3|exact H4].
Defined.

Lemma InPlace_reload_leaves_old_name_witness :
  fileMap inplace_loaded !! "/d/a.ts" = Some (Instance 0)
  /\ nameMap inplace_reloaded !! Instance 0 = Some "custom"
  /\ (forall f, fileMap inplace_reloaded !! f <> Some (Instance 0)).
Proof.
  split; [reflexivity|].
  destruct (InPlace_reload_leaves_old_name posix flat host "/d/a.ts" true
              inplace_loaded O "custom" 1%nat Alpha (Instance 1)
              inplace_reloaded inplace_loaded_consistent)
    as (_ & H2 & H3 & _); try reflexivity; try discriminate.
  split; [exact H2|exact H3].
Defined.

Lemma InPlace_load_event_names_constructor_witness :
  fileMap initial_state !! "/d/a.ts" = None
  /\ events (trace inplace_loaded)
     = events (trace initial_state) ++ [EvLoad (Some "Alpha") (Instance 0)]
  /\ findPathFromName inplace_loaded "custom" = Some "/d/a.ts".
Proof.
  split; [reflexivity|].
  apply (InPlace_load_event_names_constructor posix flat host "/d/a.ts"
           (Some "custom") initial_state 1%nat Alpha (Instance 0)
           inplace_loaded); reflexivity.
Defined.

Lemma ready_once_callbacks_once_witness :
  let steps :=
    [(readdir_clean, host, SOnReady 7);
     (readdir_clean, host, SLoadFiles None None);
     (readdir_clean, host, SOnReady 7);
     (readdir, host, SLoadFiles None None)] in
  let s := runS posix join flat steps new_session in
  ready_count (batch_events (batchLog s)) = 1%nat
  /\ onceReady s = []
  /\ calls_of 7 (batchLog s) = 2%nat.
Proof.
  cbv zeta.
  destruct (ready_once_callbacks_once posix join flat
              [(readdir_clean, host, SOnReady 7);
               (readdir_clean, host, SLoadFiles None None);
               (readdir_clean, host, SOnReady 7);
               (readdir, host, SLoadFiles None None)]) as (H1 & H2 & H3).
  split; [exact H1|]. split; [apply H2; reflexivity|].
  specialize (H3 7%nat). exact H3.
Defined.

End MoreRuns.
